(** * gsb.parser: the command parser of game-server-base

    A shallow embedding of [src/gsb/parser.py] (class [Parser]) and proofs
    about command registration and line resolution.

    Conventions of the embedding:
    - Python [str] is [string]; a [dict] is an insertion-ordered association
      list with unique keys (module [Dict]), because [all_commands] and
      [explain] iterate dictionaries in insertion order.
    - The mutable objects the parser works on are gathered in [State]: the
      parser instance itself ([self]), the outside world the handlers and the
      connection act on ([world]), the address of the next allocated object
      ([next_oid]) and a ghost [trace] of the calls the parser makes.
    - A raised exception is a value of [PyExc]; a function that may raise
      returns an [Outcome] or a [Completion]. *)

From Stdlib Require Import String Ascii List Arith Bool Lia.
Import ListNotations.
Open Scope string_scope.
Open Scope list_scope.

(* ================================================================= *)
(** ** Python strings *)

Module PyStr.

(** [s[n:]] *)
Fixpoint drop (n : nat) (s : string) : string :=
  match n, s with
  | O, _ => s
  | S _, EmptyString => EmptyString
  | S n', String _ s' => drop n' s'
  end.

(** [s.startswith(p)] *)
Fixpoint startswith (p s : string) : bool :=
  match p, s with
  | EmptyString, _ => true
  | String _ _, EmptyString => false
  | String a p', String b s' => Ascii.eqb a b && startswith p' s'
  end.

(** [s.partition(sep)] for a non-empty [sep], when [sep] occurs in [s]: the
    text before the first (leftmost) occurrence and the text after it. *)
Fixpoint cut (sep s : string) : option (string * string) :=
  if startswith sep s then Some (EmptyString, drop (String.length sep) s)
  else match s with
       | EmptyString => None
       | String c s' =>
           match cut sep s' with
           | Some (before, after) => Some (String c before, after)
           | None => None
           end
       end.

(** [s.split(sep, 1)]: [None] stands for [ValueError('empty separator')]. *)
Definition split1 (s sep : string) : option (list string) :=
  match sep with
  | EmptyString => None
  | String _ _ =>
      match cut sep s with
      | Some (before, after) => Some [before; after]
      | None => Some [s]
      end
  end.

(** [sep.join(l)] *)
Fixpoint join (sep : string) (l : list string) : string :=
  match l with
  | [] => EmptyString
  | [x] => x
  | x :: rest => x ++ sep ++ join sep rest
  end.

(** The double quote character, for format strings that contain it. *)
Definition dquote : string := String (ascii_of_nat 34) EmptyString.

End PyStr.

(* ================================================================= *)
(** ** Python dictionaries with [str] keys *)

Module Dict.

Definition t (V : Type) : Type := list (string * V).

Section Ops.
Context {V : Type}.

(** [d.get(k)] *)
Fixpoint get (d : t V) (k : string) : option V :=
  match d with
  | [] => None
  | (k', v) :: d' => if String.eqb k' k then Some v else get d' k
  end.

(** [d.get(k, dflt)] *)
Definition get_default (d : t V) (k : string) (dflt : V) : V :=
  match get d k with
  | Some v => v
  | None => dflt
  end.

(** [k in d] *)
Definition contains (d : t V) (k : string) : bool :=
  match get d k with
  | Some _ => true
  | None => false
  end.

(** [d[k] = v]: an existing key keeps its position, a new key goes last. *)
Fixpoint set (d : t V) (k : string) (v : V) : t V :=
  match d with
  | [] => [(k, v)]
  | (k', v') :: d' =>
      if String.eqb k' k then (k', v) :: d' else (k', v') :: set d' k v
  end.

(** The dictionary left by [d.pop(k, ...)]. *)
Fixpoint remove (d : t V) (k : string) : t V :=
  match d with
  | [] => []
  | (k', v') :: d' =>
      if String.eqb k' k then remove d' k else (k', v') :: remove d' k
  end.

(** [d.pop(k, dflt)]: the value and the dictionary after the call. *)
Definition pop (d : t V) (k : string) (dflt : V) : V * t V :=
  (get_default d k dflt, remove d k).

(** [d.keys()], [d.values()], [d.items()] *)
Definition keys (d : t V) : list string := map fst d.
Definition values (d : t V) : list V := map snd d.
Definition items (d : t V) : list (string * V) := d.

End Ops.
End Dict.

(* ================================================================= *)
(** ** Exceptions, messages, the world *)

(** The classes of exception the [try] statement of [handle_line] tells
    apart: [DontStopException] (first [except] clause), any other instance of
    [Exception] (second clause), and exceptions that derive from
    [BaseException] only ([SystemExit], [KeyboardInterrupt],
    [GeneratorExit]), which no clause catches. *)
Inductive PyExc : Type :=
| DontStopException
| StdError (cls : string)
| BaseOnly (cls : string).

(** How a call ends. *)
Inductive Outcome : Type :=
| Returned
| Raised (e : PyExc).

(** A connection is referred to by its handle. *)
Definition Connection : Type := nat.

(** The arguments of one [connection.notify(fmt, *args)] call. *)
Record Message : Type := MkMessage {
  fmt : string;
  fmt_args : list string
}.

(** What handlers, hooks and connections act on: the messages each
    connection has been sent, and the rest of the game state, which only
    handlers and hooks touch. *)
Record World : Type := MkWorld {
  outbox : list (Connection * Message);
  game : list string
}.

(** [connection.notify(fmt, *args)] *)
Definition notify_world (conn : Connection) (m : Message) (w : World) : World :=
  {| outbox := outbox w ++ [(conn, m)]; game := game w |}.

(* ================================================================= *)
(** ** Caller *)

Module Caller.

(** Modelled from the spec: the [Caller] class ([gsb/caller.py]) is not in
    the sources at hand.  It is the per-invocation context: the connection,
    the raw line, then the command token, the argument text, the captured
    arguments and an optional captured exception, each unset ([None]) until
    [handle_line] assigns it. *)
Record t : Type := Make {
  connection : Connection;
  text : string;
  command : option string;
  args_str : option string;
  args : option (list (option string));
  kwargs : option (list (string * option string));
  exception : option PyExc
}.

(** [Caller(connection, text=line)] *)
Definition new (conn : Connection) (line : string) : t :=
  {| connection := conn; text := line; command := None; args_str := None;
     args := None; kwargs := None; exception := None |}.

Definition set_command (v : string) (c : t) : t :=
  {| connection := connection c; text := text c; command := Some v;
     args_str := args_str c; args := args c; kwargs := kwargs c;
     exception := exception c |}.

Definition set_args_str (v : string) (c : t) : t :=
  {| connection := connection c; text := text c; command := command c;
     args_str := Some v; args := args c; kwargs := kwargs c;
     exception := exception c |}.

Definition set_args (v : list (option string)) (c : t) : t :=
  {| connection := connection c; text := text c; command := command c;
     args_str := args_str c; args := Some v; kwargs := kwargs c;
     exception := exception c |}.

Definition set_kwargs (v : list (string * option string)) (c : t) : t :=
  {| connection := connection c; text := text c; command := command c;
     args_str := args_str c; args := args c; kwargs := Some v;
     exception := exception c |}.

Definition set_exception (e : PyExc) (c : t) : t :=
  {| connection := connection c; text := text c; command := command c;
     args_str := args_str c; args := args c; kwargs := kwargs c;
     exception := Some e |}.

End Caller.

(* ================================================================= *)
(** ** Patterns, handlers, commands *)

(** The result of a successful [pattern.match(s)]: [m.groups()] and
    [m.groupdict()]. *)
Record Match : Type := MkMatch {
  groups : list (option string);
  groupdict : list (string * option string)
}.

(** A compiled pattern is used through [match] only; [None] is no match. *)
Definition Pattern : Type := string -> option Match.

(** A handler is called with the caller; it acts on the world and returns
    or raises.  The caller is one object that the hooks, the permissions
    and the handlers of a line all receive; here they read it and only
    [handle_line] assigns to it, so nothing below says what a callback
    would see after another callback has assigned to the caller. *)
Definition Handler : Type := Caller.t -> World -> Outcome * World.

(** A Python function object as [command] uses it: [__name__] (which
    [getattr] may find missing), [__doc__] and the call. *)
Record Func : Type := MkFunc {
  fn_name : option string;
  fn_doc : option string;
  fn_call : Handler
}.

(** A keyword-argument value. *)
Inductive PyVal : Type :=
| VNames (l : list string)
| VStr (s : string)
| VRegexp (r : option Pattern)
| VPred (f : Caller.t -> bool)
| VObj (n : nat).

Module Command.

(** Modelled from the spec: the [Command] class ([gsb/command.py]) is not in
    the sources at hand.  It is the registration record built by
    [command_class(func, names, description, help, args_regexp, allowed,
    **kwargs)]; [oid] is the identity of the object. *)
Record t : Type := Make {
  oid : nat;
  func : Func;
  names : list string;
  description : string;
  help : string;
  args_regexp : option Pattern;
  allowed : Caller.t -> bool;
  extra : Dict.t PyVal
}.

(** Modelled from the spec: [cmd.ok_for(caller)] is the permission predicate
    of the command applied to the caller. *)
Definition ok_for (c : t) (caller : Caller.t) : bool := allowed c caller.

(** Modelled from the spec: two commands are the same when they are the same
    object; this is the comparison behind [cmd not in l]. *)
Definition eqb (a b : t) : bool := Nat.eqb (oid a) (oid b).

End Command.

(* ================================================================= *)
(** ** The parser object and the machine state *)

(** The parser instance.  [command_separator] is the class attribute
    (a single space unless overridden); [commands] is the registry and
    [command_substitutions] the substitution table.  The three [m_] fields
    are the method slots a subclass overrides: what [self.pre_command],
    [self.huh] and [self.on_error] resolve to.  ([command_class] is always
    [Command] here.) *)
Record Parser : Type := MkParser {
  command_separator : string;
  default_args_regexp : option Pattern;
  commands : Dict.t (list Command.t);
  command_substitutions : Dict.t string;
  m_pre_command : Caller.t -> World -> bool * World;
  m_huh : Caller.t -> World -> World;
  m_on_error : Caller.t -> World -> World
}.

Inductive LogLevel : Type := DEBUG | WARNING | ERROR.

(** An argument of a logging call. *)
Inductive LogArg : Type :=
| AStr (s : string)
| AKwargs (ks : list string)
| AParser
| ACommand (oid : nat)
| AExc (e : PyExc).

(** The calls the parser makes, in the order it makes them (ghost state). *)
Inductive Event : Type :=
| EvPreCommand (c : Caller.t)
| EvGetCommands (name : string)
| EvOkFor (oid : nat) (c : Caller.t)
| EvExplain (oid : nat) (conn : Connection)
| EvCall (oid : nat) (c : Caller.t) (o : Outcome)
| EvOnError (c : Caller.t)
| EvHuh (c : Caller.t)
| EvLog (lvl : LogLevel) (msg : LogArg) (a : list LogArg).

Record State : Type := MkState {
  self : Parser;
  world : World;
  trace : list Event;
  next_oid : nat
}.

Definition set_self (p : Parser) (st : State) : State :=
  {| self := p; world := world st; trace := trace st;
     next_oid := next_oid st |}.

Definition set_world (w : World) (st : State) : State :=
  {| self := self st; world := w; trace := trace st;
     next_oid := next_oid st |}.

Definition emit (e : Event) (st : State) : State :=
  {| self := self st; world := world st; trace := trace st ++ [e];
     next_oid := next_oid st |}.

(** [connection.notify(fmt, *args)] *)
Definition notify (conn : Connection) (f : string) (a : list string)
  (st : State) : State :=
  set_world (notify_world conn (MkMessage f a) (world st)) st.

(** [logger.debug], [logger.warning], [logger.exception] *)
Definition log (lvl : LogLevel) (msg : LogArg) (a : list LogArg)
  (st : State) : State :=
  emit (EvLog lvl msg a) st.

(** How [handle_line] ends: it returns [None] or the number of matched
    commands, or an exception leaves it. *)
Inductive Completion : Type :=
| Normal (v : option nat)
| Thrown (e : PyExc).

(** How one turn of the [for] loop of [handle_line] ends. *)
Inductive Step : Type :=
| Continue
| Break
| Raise (e : PyExc).

(** How the whole [for] loop ends: exhausted (the [else] clause runs), left
    by [break], or left by an exception. *)
Inductive LoopExit : Type :=
| Exhausted
| Broke
| Propagated (e : PyExc).

(** The variables of [handle_line] that the loop updates. *)
Record Locals : Type := MkLocals {
  l_caller : Caller.t;
  l_commands : nat;
  l_state : State
}.

(* ================================================================= *)
(** ** The methods of [Parser] *)

Module ParserM.

(** [cmd in l] *)
Definition mem (cmd : Command.t) (l : list Command.t) : bool :=
  existsb (fun x => Command.eqb x cmd) l.

(** [Parser.all_commands] *)
Definition all_commands (st : State) : list Command.t :=
  fold_left
    (fun l objects =>
       fold_left
         (fun l cmd => if negb (mem cmd l) then l ++ [cmd] else l)
         objects l)
    (Dict.values (commands (self st)))
    [].

(** [Parser.huh]: the base implementation. *)
Definition huh (caller : Caller.t) (w : World) : World :=
  notify_world (Caller.connection caller)
    (MkMessage "I don't understand that." []) w.

(** [Parser.on_error]: the base implementation. *)
Definition on_error (caller : Caller.t) (w : World) : World :=
  notify_world (Caller.connection caller)
    (MkMessage "There was an error with your command." []) w.

(** [Parser.pre_command]: the base implementation. *)
Definition pre_command (caller : Caller.t) (w : World) : bool * World :=
  (true, w).

(** [Parser.make_command_names] *)
Definition make_command_names (func : Func) : list string :=
  [match fn_name func with Some n => n | None => "command" end].

(** [Parser.make_command_description]: [func.__doc__ or '...'], so that an
    empty docstring gives the placeholder too. *)
Definition make_command_description (func : Func) : string :=
  match fn_doc func with
  | Some (String a d) => String a d
  | _ => "No description available."
  end.

(** [Parser.make_command_help] *)
Definition make_command_help (func : Func) : string :=
  "No help available.".

(** [Parser.split]: [None] is the [ValueError] of [str.split]. *)
Definition split (p : Parser) (line : string) : option (string * string) :=
  match PyStr.split1 line (command_separator p) with
  | Some [c] => Some (c, EmptyString)
  | Some [c; a] => Some (c, a)
  | _ => None
  end.

(** [Parser.get_commands] *)
Definition get_commands (p : Parser) (name : string) : list Command.t :=
  Dict.get_default (commands p) name [].

(** [Parser.explain_substitution] *)
Definition explain_substitution (conn : Connection) (short long : string)
  (st : State) : State :=
  notify conn
    ("Instead of typing " ++ PyStr.dquote ++ "%s%s" ++ PyStr.dquote
       ++ ", you can type %s.")
    [long; command_separator (self st); short] st.

(** [value in command.names] *)
Definition name_in (value : string) (l : list string) : bool :=
  existsb (String.eqb value) l.

(** [Parser.explain] *)
Definition explain (command : Command.t) (conn : Connection) (st : State)
  : State :=
  let st := notify conn "%s:" [PyStr.join " or " (Command.names command)] st in
  let st :=
    fold_left
      (fun st kv =>
         if name_in (snd kv) (Command.names command)
         then explain_substitution conn (fst kv) (snd kv) st
         else st)
      (Dict.items (command_substitutions (self st))) st in
  let st := notify conn (Command.description command) [] st in
  notify conn (Command.help command) [] st.

(** *** Registration *)

(** The body of the [for name in c.names] loop of [command]: the list under
    [name] (a fresh one when the key is absent) gets [c] appended and is
    stored back under [name]. *)
Definition register_name (c : Command.t) (st : State) (name : string)
  : State :=
  let p := self st in
  let l := Dict.get_default (commands p) name [] in
  let l := l ++ [c] in
  set_self
    {| command_separator := command_separator p;
       default_args_regexp := default_args_regexp p;
       commands := Dict.set (commands p) name l;
       command_substitutions := command_substitutions p;
       m_pre_command := m_pre_command p;
       m_huh := m_huh p;
       m_on_error := m_on_error p |}
    st.

(** The [for name in c.names] loop of [command]. *)
Definition register (c : Command.t) (st : State) : State :=
  fold_left (register_name c) (Command.names c) st.

(** The object [command_class(...)] creates gets the next free identity. *)
Definition alloc (st : State) : nat * State :=
  (next_oid st,
   {| self := self st; world := world st; trace := trace st;
      next_oid := S (next_oid st) |}).

(** The function [inner] of [Parser.command], with the keyword arguments
    [kwargs] of the enclosing call.  A keyword value of another dynamic type
    than the field it is for is outside this model: the result is [None]
    then.  The keyword arguments left after the five [pop] calls go to the
    command as they are. *)
Definition inner (kwargs : Dict.t PyVal) (func : Func) (st : State)
  : option (Command.t * State) :=
  let '(names, kwargs) :=
    Dict.pop kwargs "names" (VNames (make_command_names func)) in
  let '(description, kwargs) :=
    Dict.pop kwargs "description" (VStr (make_command_description func)) in
  let '(help, kwargs) :=
    Dict.pop kwargs "help" (VStr (make_command_help func)) in
  let '(args_regexp, kwargs) :=
    Dict.pop kwargs "args_regexp" (VRegexp (default_args_regexp (self st))) in
  let '(allowed, kwargs) :=
    Dict.pop kwargs "allowed" (VPred (fun caller => true)) in
  match names, description, help, args_regexp, allowed with
  | VNames names, VStr description, VStr help, VRegexp args_regexp,
    VPred allowed =>
      let '(o, st) := alloc st in
      let c :=
        Command.Make o func names description help args_regexp allowed
          kwargs in
      Some (c, register c st)
  | _, _, _, _, _ => None
  end.

(** What [Parser.command] returns: the decorator [inner] when no function is
    given, the result of [inner(func)] otherwise.  The decorator is [inner]
    over the keyword arguments of the call: this is its first call.  The
    [pop] calls take the five keywords out of the dictionary the closure
    holds, so a later call of the same decorator object would be [inner]
    over what is left; no statement below uses a decorator twice. *)
Inductive CommandResult : Type :=
| Decorator (k : Func -> State -> option (Command.t * State)) (st : State)
| Registered (r : option (Command.t * State)).

(** [Parser.command] *)
Definition command (func : option Func) (kwargs : Dict.t PyVal) (st : State)
  : CommandResult :=
  match func with
  | None => Decorator (inner kwargs) st
  | Some f => Registered (inner kwargs f st)
  end.

(** The body of the [for key, value in kwargs.items()] loop of the function
    [f] of [Parser.default_kwargs]: [kwargs] are the pre-filled defaults,
    [kw] the keyword arguments of the call of [f] as they are by now. *)
Definition fill_step (kwargs : Dict.t PyVal) (acc : Dict.t PyVal * State)
  (kv : string * PyVal) : Dict.t PyVal * State :=
  let '(kw, st) := acc in
  let '(key, value) := kv in
  let st :=
    if Dict.contains kw key
    then log WARNING (AStr "Keyword argument %s specified twice: %r, %r.")
           [AStr key; AKwargs (Dict.keys kwargs); AKwargs (Dict.keys kw)] st
    else st in
  (Dict.set kw key value, st).

(** The [for key, value in kwargs.items()] loop. *)
Definition fill_kwargs (kwargs kw : Dict.t PyVal) (st : State)
  : Dict.t PyVal * State :=
  fold_left (fill_step kwargs) (Dict.items kwargs) (kw, st).

(** The function [f] that [Parser.default_kwargs] yields. *)
Definition default_kwargs_f (kwargs : Dict.t PyVal) (a : option Func)
  (kw : Dict.t PyVal) (st : State) : CommandResult :=
  let '(kw, st) := fill_kwargs kwargs kw st in
  command a kw st.

(** [Parser.default_kwargs] as a context manager around [body], the block of
    the [with] statement, which receives [f]. *)
Definition default_kwargs (kwargs : Dict.t PyVal)
  (body : (option Func -> Dict.t PyVal -> State -> CommandResult) ->
          State -> State)
  (st : State) : State :=
  let st :=
    log DEBUG (AStr "Adding commands with default kwargs: %r.")
      [AKwargs (Dict.keys kwargs)] st in
  let st := body (default_kwargs_f kwargs) st in
  log DEBUG (AStr "Context manager closing.") [] st.

(** *** Line resolution *)

(** Lines 171-174 of [handle_line]: the substitution of the first
    character. *)
Definition substitute (p : Parser) (line : string) : string :=
  match line with
  | EmptyString => line
  | String c rest =>
      match Dict.get (command_substitutions p) (String c EmptyString) with
      | Some long => long ++ command_separator p ++ rest
      | None => line
      end
  end.

(** Lines 194-208: the command counts as matched, its function is called,
    and the [try] statement decides how the loop goes on. *)
Definition invoke (cmd : Command.t) (caller : Caller.t) (n : nat)
  (st : State) : Step * Locals :=
  let n := n + 1 in
  let '(o, w) := fn_call (Command.func cmd) caller (world st) in
  let st := emit (EvCall (Command.oid cmd) caller o) (set_world w st) in
  match o with
  | Returned => (Break, MkLocals caller n st)
  | Raised DontStopException => (Continue, MkLocals caller n st)
  | Raised (StdError cls) =>
      let e := StdError cls in
      let st :=
        log WARNING (AStr "Error caught by %r from command %r:")
          [AParser; ACommand (Command.oid cmd)] st in
      let st := log ERROR (AExc e) [] st in
      let caller := Caller.set_exception e caller in
      let st := emit (EvOnError caller) st in
      let st := set_world (m_on_error (self st) caller (world st)) st in
      (Continue, MkLocals caller n st)
  | Raised (BaseOnly cls) => (Raise (BaseOnly cls), MkLocals caller n st)
  end.

(** Lines 184-193: the captures the caller gets from the pattern of [cmd],
    [None] when the pattern does not match [args]. *)
Definition bind_args (cmd : Command.t) (args : string) (caller : Caller.t)
  : option Caller.t :=
  match Command.args_regexp cmd with
  | None => Some (Caller.set_kwargs [] (Caller.set_args [] caller))
  | Some re =>
      match re args with
      | None => None
      | Some m =>
          Some (Caller.set_kwargs (groupdict m)
                  (Caller.set_args (groups m) caller))
      end
  end.

(** Lines 183-208: one turn of the loop, for the candidate [cmd]. *)
Definition attempt (cmd : Command.t) (args : string) (v : Locals)
  : Step * Locals :=
  let caller := l_caller v in
  let n := l_commands v in
  let st := emit (EvOkFor (Command.oid cmd) caller) (l_state v) in
  if Command.ok_for cmd caller then
    match bind_args cmd args caller with
    | None =>
        let conn := Caller.connection caller in
        let st := emit (EvExplain (Command.oid cmd) conn) st in
        (Break, MkLocals caller n (explain cmd conn st))
    | Some caller => invoke cmd caller n st
    end
  else (Continue, MkLocals caller n st).

(** Lines 182-208: the [for] loop over the candidates. *)
Fixpoint for_loop (cmds : list Command.t) (args : string) (v : Locals)
  : LoopExit * Locals :=
  match cmds with
  | [] => (Exhausted, v)
  | cmd :: rest =>
      match attempt cmd args v with
      | (Continue, v') => for_loop rest args v'
      | (Break, v') => (Broke, v')
      | (Raise e, v') => (Propagated e, v')
      end
  end.

(** The value of [return commands] under [if commands:], and the implicit
    [None] otherwise. *)
Definition result (n : nat) : option nat :=
  match n with
  | O => None
  | S _ => Some n
  end.

(** [Parser.handle_line] *)
Definition handle_line (conn : Connection) (line : string) (st : State)
  : Completion * State :=
  let line := substitute (self st) line in
  let caller := Caller.new conn line in
  let st := emit (EvPreCommand caller) st in
  let '(go, w) := m_pre_command (self st) caller (world st) in
  let st := set_world w st in
  if negb go then (Normal None, st)
  else
    match split (self st) line with
    | None => (Thrown (StdError "ValueError"), st)
    | Some (command, args) =>
        let caller := Caller.set_command command caller in
        let caller := Caller.set_args_str args caller in
        let st := emit (EvGetCommands command) st in
        match
          for_loop (get_commands (self st) command) args
            (MkLocals caller 0 st)
        with
        | (Exhausted, v) =>
            let n := l_commands v in
            let st :=
              match n with
              | O =>
                  let st := emit (EvHuh (l_caller v)) (l_state v) in
                  set_world (m_huh (self st) (l_caller v) (world st)) st
              | S _ => l_state v
              end in
            (Normal (result n), st)
        | (Broke, v) => (Normal (result (l_commands v)), l_state v)
        | (Propagated e, v) => (Thrown e, l_state v)
        end
    end.

End ParserM.

(** The parser as [Parser()] builds it: empty registry and substitution
    table, no default pattern, the base methods. *)
Definition new_parser : Parser :=
  {| command_separator := " ";
     default_args_regexp := None;
     commands := [];
     command_substitutions := [];
     m_pre_command := ParserM.pre_command;
     m_huh := ParserM.huh;
     m_on_error := ParserM.on_error |}.

Definition empty_world : World := {| outbox := []; game := [] |}.

(** A state around parser [p], with nothing sent and nothing traced. *)
Definition init (p : Parser) : State :=
  {| self := p; world := empty_world; trace := []; next_oid := 0 |}.

(* ================================================================= *)
(** ** Sample handlers, patterns and parsers *)

Module Sample.

(** A handler that writes [tag] into the game state and ends with [o]. *)
Definition handler (tag : string) (o : Outcome) : Handler :=
  fun caller w => (o, {| outbox := outbox w; game := game w ++ [tag] |}).

Definition func (name : string) (h : Handler) : Func :=
  {| fn_name := Some name; fn_doc := None; fn_call := h |}.

(** The pattern [.+] as [match] sees it: a text whose first character
    exists and is not a line feed; no groups. *)
Definition some_text : Pattern :=
  fun s =>
    match s with
    | EmptyString => None
    | String c _ =>
        if Ascii.eqb c (ascii_of_nat 10) then None
        else Some {| groups := []; groupdict := [] |}
    end.

(** Registers [f] with keyword arguments [kw]; the state is left as it is
    when the registration is refused. *)
Definition add (f : Func) (kw : Dict.t PyVal) (st : State) : State :=
  match ParserM.inner kw f st with
  | Some (_, st') => st'
  | None => st
  end.

(** Two commands named [look]: the first raises [DontStopException], the
    second returns. *)
Definition look_twice : State :=
  add (func "look" (handler "second" Returned)) []
    (add (func "look" (handler "first" (Raised DontStopException))) []
       (init new_parser)).

(** The command [say] with pattern [.+] and the substitution of the double
    quote by [say]. *)
Definition say_parser : Parser :=
  {| command_separator := " ";
     default_args_regexp := Some some_text;
     commands := [];
     command_substitutions := [(PyStr.dquote, "say")];
     m_pre_command := ParserM.pre_command;
     m_huh := ParserM.huh;
     m_on_error := ParserM.on_error |}.

Definition say_state : State :=
  add (func "say" (handler "said" Returned)) [] (init say_parser).

(** Two commands named [look]: the first raises [err], the second returns. *)
Definition faulty (err : PyExc) : State :=
  add (func "look" (handler "second" Returned)) []
    (add (func "look" (handler "first" (Raised err))) []
       (init new_parser)).

(** A parser whose [pre_command] refuses every line. *)
Definition veto_parser : Parser :=
  {| command_separator := " ";
     default_args_regexp := None;
     commands := [];
     command_substitutions := [];
     m_pre_command := fun caller w => (false, w);
     m_huh := ParserM.huh;
     m_on_error := ParserM.on_error |}.

(** A third command, registered under [l] and [look]. *)
Definition look_alias : State :=
  add (func "peek" (handler "third" Returned)) [("names", VNames ["l"; "look"])]
    look_twice.

(** A substitution whose long form holds the separator, and one whose long
    form starts with its own key. *)
Definition alias_parser : Parser :=
  {| command_separator := " ";
     default_args_regexp := None;
     commands := [];
     command_substitutions := [("n", "go north"); ("s", "say")];
     m_pre_command := ParserM.pre_command;
     m_huh := ParserM.huh;
     m_on_error := ParserM.on_error |}.

End Sample.

(* ================================================================= *)
(** ** Reading a trace *)

Module Obs.

Definition is_get_commands (e : Event) : bool :=
  match e with EvGetCommands _ => true | _ => false end.

Definition is_explain (e : Event) : bool :=
  match e with EvExplain _ _ => true | _ => false end.

Definition is_huh (e : Event) : bool :=
  match e with EvHuh _ => true | _ => false end.

Definition is_on_error (e : Event) : bool :=
  match e with EvOnError _ => true | _ => false end.

(** A call of a handler that raised an [Exception] other than
    [DontStopException]. *)
Definition is_fault (e : Event) : bool :=
  match e with EvCall _ _ (Raised (StdError _)) => true | _ => false end.

(** How many events of [tr] satisfy [f]. *)
Definition count (f : Event -> bool) (tr : list Event) : nat :=
  List.length (filter f tr).

(** Whether some event of [tr] satisfies [f]. *)
Definition fired (f : Event -> bool) (tr : list Event) : bool :=
  existsb f tr.

(** What the events [tr] of a loop that ended with [ex] look like, when the
    number of matched commands went from [n] to [n']. *)
Definition loop_summary (ex : LoopExit) (n n' : nat) (tr : list Event)
  : Prop :=
  fired is_huh tr = false /\
  fired is_get_commands tr = false /\
  count is_on_error tr = count is_fault tr /\
  n <= n' /\
  match ex with
  | Exhausted => fired is_explain tr = false
  | Broke => n' = n -> fired is_explain tr = true
  | Propagated e =>
      exists cls oid c tr0,
        e = BaseOnly cls /\
        tr = tr0 ++ [EvCall oid c (Raised (BaseOnly cls))]
  end.

(** The same for one turn of the loop. *)
Definition step_summary (s : Step) (n n' : nat) (tr : list Event) : Prop :=
  loop_summary
    match s with
    | Continue => Exhausted
    | Break => Broke
    | Raise e => Propagated e
    end n n' tr.

(** The variables of [handle_line] when the loop starts: [text] is the line
    after substitution, [name] and [args] what [split] made of it, [w] the
    world the pre-command hook left. *)
Definition entry (conn : Connection) (text name args : string) (w : World)
  (st : State) : Locals :=
  let caller := Caller.new conn text in
  MkLocals
    (Caller.set_args_str args (Caller.set_command name caller)) 0
    (emit (EvGetCommands name) (set_world w (emit (EvPreCommand caller) st))).

(** The messages [explain] sends for [cmd] to [conn]: the names, a hint for
    each substitution whose long form is one of the names, the description
    and the help. *)
Definition explanation (p : Parser) (cmd : Command.t) (conn : Connection)
  : list (Connection * Message) :=
  (conn, MkMessage "%s:" [PyStr.join " or " (Command.names cmd)])
  :: map
       (fun kv =>
          (conn,
           MkMessage
             ("Instead of typing " ++ PyStr.dquote ++ "%s%s" ++ PyStr.dquote
                ++ ", you can type %s.")
             [snd kv; command_separator p; fst kv]))
       (filter (fun kv => ParserM.name_in (snd kv) (Command.names cmd))
          (Dict.items (command_substitutions p)))
  ++ [(conn, MkMessage (Command.description cmd) []);
      (conn, MkMessage (Command.help cmd) [])].

(** The commands of the registry, name list after name list. *)
Definition registered (p : Parser) : list Command.t :=
  concat (Dict.values (commands p)).

(** The body of the inner loop of [all_commands]. *)
Definition keep (l : list Command.t) (cmd : Command.t) : list Command.t :=
  if negb (ParserM.mem cmd l) then l ++ [cmd] else l.

(** The value a command holds for the keyword [key] of its registration. *)
Definition field (c : Command.t) (key : string) : option PyVal :=
  if String.eqb key "names" then Some (VNames (Command.names c))
  else if String.eqb key "description" then Some (VStr (Command.description c))
  else if String.eqb key "help" then Some (VStr (Command.help c))
  else if String.eqb key "args_regexp"
       then Some (VRegexp (Command.args_regexp c))
  else if String.eqb key "allowed" then Some (VPred (Command.allowed c))
  else Dict.get (Command.extra c) key.

(** Whether [v] has the dynamic type the field of keyword [key] is used
    with; any value will do for a keyword that is not one of the five. *)
Definition ok_value (key : string) (v : PyVal) : bool :=
  if String.eqb key "names"
  then match v with VNames _ => true | _ => false end
  else if String.eqb key "description"
  then match v with VStr _ => true | _ => false end
  else if String.eqb key "help"
  then match v with VStr _ => true | _ => false end
  else if String.eqb key "args_regexp"
  then match v with VRegexp _ => true | _ => false end
  else if String.eqb key "allowed"
  then match v with VPred _ => true | _ => false end
  else true.

(** Keyword arguments whose values have the types of their fields. *)
Definition typed (kw : Dict.t PyVal) : Prop :=
  forall key v, Dict.get kw key = Some v -> ok_value key v = true.

(** The warning [f] logs for a keyword given twice. *)
Definition twice_warning (key : string) (e : Event) : Prop :=
  exists ks ks',
    e = EvLog WARNING (AStr "Keyword argument %s specified twice: %r, %r.")
          [AStr key; AKwargs ks; AKwargs ks'].

End Obs.

(* ================================================================= *)
(** ** More ways to read traces, registries and strings *)

Module Inv.

(** [sep] occurs in [s]. *)
Definition occurs (sep s : string) : Prop :=
  exists before after, s = (before ++ sep ++ after)%string.

Definition is_pre_command (e : Event) : bool :=
  match e with EvPreCommand _ => true | _ => false end.

Definition is_call (e : Event) : bool :=
  match e with EvCall _ _ _ => true | _ => false end.

(** A call of a handler that returned. *)
Definition is_return (e : Event) : bool :=
  match e with EvCall _ _ Returned => true | _ => false end.

(** The events the [for] loop of [handle_line] can add. *)
Definition loop_event (e : Event) : bool :=
  match e with
  | EvOkFor _ _ | EvExplain _ _ | EvCall _ _ _ | EvOnError _ | EvLog _ _ _ =>
      true
  | EvPreCommand _ | EvGetCommands _ | EvHuh _ => false
  end.

(** The callers the handlers were called with, in order. *)
Definition calls (tr : list Event) : list Caller.t :=
  flat_map (fun e => match e with EvCall _ c _ => [c] | _ => [] end) tr.

(** Two callers of the same line: same connection, text, token and
    argument text. *)
Definition same_line (a b : Caller.t) : Prop :=
  Caller.connection a = Caller.connection b /\
  Caller.text a = Caller.text b /\
  Caller.command a = Caller.command b /\
  Caller.args_str a = Caller.args_str b.

(** A caller as a handler gets it for the line of [c0]. *)
Definition populated (c0 c : Caller.t) : Prop :=
  same_line c c0 /\ Caller.args c <> None /\ Caller.kwargs c <> None.

(** What the events [tr] of a loop over [len] candidates look like, when
    the loop took the variables from [v] to [v'] and ended with [ex]. *)
Definition loop_calls (len : nat) (v v' : Locals) (ex : LoopExit)
  (tr : list Event) : Prop :=
  forallb loop_event tr = true /\
  l_commands v' = l_commands v + Obs.count is_call tr /\
  Obs.count is_call tr <= len /\
  Obs.count is_return (removelast tr) = 0 /\
  (ex <> Broke -> Obs.count is_return tr = 0) /\
  same_line (l_caller v') (l_caller v) /\
  Forall (populated (l_caller v)) (calls tr).

(** The keys of the registry are distinct. *)
Definition keys_unique (p : Parser) : Prop :=
  NoDup (Dict.keys (commands p)).

(** A command is found only under names of its own. *)
Definition consistent (p : Parser) : Prop :=
  forall name c,
    In c (ParserM.get_commands p name) -> In name (Command.names c).

(** The identities of the registered commands are below the next free
    one. *)
Definition allocated (st : State) : Prop :=
  forall c, In c (Obs.registered (self st)) -> Command.oid c < next_oid st.

(** Registered commands with the same identity are the same command. *)
Definition oid_unique (p : Parser) : Prop :=
  forall a b,
    In a (Obs.registered p) -> In b (Obs.registered p) ->
    Command.oid a = Command.oid b -> a = b.

(** A state whose registry is in order. *)
Definition sound (st : State) : Prop :=
  keys_unique (self st) /\ consistent (self st) /\ allocated st /\
  oid_unique (self st).

(** The states a parser gets into: it starts with an empty registry;
    commands are registered through [command], directly or through the
    function of [default_kwargs]; lines are handled. *)
Inductive reachable : State -> Prop :=
| reach_init (p : Parser) :
    commands p = [] -> reachable (init p)
| reach_command (kwargs : Dict.t PyVal) (func : Func) (st : State)
    (c : Command.t) (st' : State) :
    reachable st ->
    ParserM.command (Some func) kwargs st
    = ParserM.Registered (Some (c, st')) ->
    reachable st'
| reach_default (kwargs kw : Dict.t PyVal) (func : Func) (st : State)
    (c : Command.t) (st' : State) :
    reachable st ->
    ParserM.default_kwargs_f kwargs (Some func) kw st
    = ParserM.Registered (Some (c, st')) ->
    reachable st'
| reach_line (conn : Connection) (line : string) (st : State) :
    reachable st ->
    reachable (snd (ParserM.handle_line conn line st)).

(** The keywords [inner] takes out of the keyword arguments. *)
Definition field_keys : list string :=
  ["names"; "description"; "help"; "args_regexp"; "allowed"].

(** Three commands named [say] on [Sample.say_parser], whose default
    pattern is [.+]: the first has no pattern and raises
    [DontStopException]; the second has the default pattern; the third has
    no pattern and returns. *)
Definition say_three : State :=
  Sample.add (Sample.func "say" (Sample.handler "third" Returned))
    [("args_regexp", VRegexp None)]
    (Sample.add (Sample.func "say" (Sample.handler "second" Returned)) []
       (Sample.add
          (Sample.func "say"
             (Sample.handler "first" (Raised DontStopException)))
          [("args_regexp", VRegexp None)]
          (init Sample.say_parser))).

(** Two commands named [open] that let nobody in. *)
Definition locked : State :=
  Sample.add (Sample.func "open" (Sample.handler "second" Returned))
    [("allowed", VPred (fun caller => false))]
    (Sample.add (Sample.func "open" (Sample.handler "first" Returned))
       [("allowed", VPred (fun caller => false))]
       (init new_parser)).

(** A parser with an empty separator. *)
Definition glued_parser : Parser :=
  {| command_separator := EmptyString;
     default_args_regexp := None;
     commands := [];
     command_substitutions := [];
     m_pre_command := ParserM.pre_command;
     m_huh := ParserM.huh;
     m_on_error := ParserM.on_error |}.

End Inv.

(** Brings a state built by [emit], [log] and [set_world] to a record with
    the trace as one list. *)
Ltac state_eq :=
  unfold log, emit, set_world;
  cbn [self world trace next_oid];
  rewrite <- ?List.app_assoc;
  reflexivity.

(* ================================================================= *)
(** * Properties *)

(** ** Strings *)

Module PyStrFacts.
Import PyStr.

Lemma startswith_app (p s : string) : startswith p (p ++ s) = true.
Proof.
  induction p as [|a p IH]; simpl.
  - reflexivity.
  - now rewrite Ascii.eqb_refl, IH.
Qed.

Lemma drop_app (p s : string) : drop (String.length p) (p ++ s) = s.
Proof. induction p as [|a p IH]; simpl; [reflexivity | exact IH]. Qed.

(** A prefix test looks at the first [length p] characters only. *)
Lemma startswith_long (p : string) :
  forall s t, String.length p <= String.length s ->
  startswith p (s ++ t) = startswith p s.
Proof.
  induction p as [|a p IH]; intros s t Hlen; simpl.
  - reflexivity.
  - destruct s as [|b s]; simpl in *.
    + lia.
    + rewrite IH by lia. reflexivity.
Qed.

Lemma length_app (s t : string) :
  String.length (s ++ t) = String.length s + String.length t.
Proof. induction s as [|a s IH]; simpl; [reflexivity | now rewrite IH]. Qed.

Lemma app_assoc (s t u : string) : ((s ++ t) ++ u = s ++ t ++ u)%string.
Proof. induction s as [|a s IH]; simpl; [reflexivity | now rewrite IH]. Qed.

Lemma cut_here (sep s : string) :
  startswith sep s = true ->
  cut sep s = Some (EmptyString, drop (String.length sep) s).
Proof. intros H. destruct s; simpl; rewrite H; reflexivity. Qed.

Lemma cut_later (sep : string) (a : ascii) (s : string) :
  startswith sep (String a s) = false ->
  cut sep (String a s) =
  match cut sep s with
  | Some (before, after) => Some (String a before, after)
  | None => None
  end.
Proof. intros H. simpl. rewrite H. reflexivity. Qed.

(** When the first occurrence of [sep] in [long ++ sep] is the final one,
    the same cut is found whatever follows. *)
Lemma cut_extend (sep : string) :
  forall long rest,
  cut sep (long ++ sep) = Some (long, EmptyString) ->
  cut sep (long ++ sep ++ rest) = Some (long, rest).
Proof.
  induction long as [|a long IH]; intros rest H.
  - change (EmptyString ++ sep ++ rest)%string with (sep ++ rest)%string.
    rewrite cut_here by apply startswith_app.
    now rewrite drop_app.
  - change (String a long ++ sep ++ rest)%string
      with (String a (long ++ sep ++ rest)).
    change (String a long ++ sep)%string with (String a (long ++ sep)) in H.
    destruct (startswith sep (String a (long ++ sep))) eqn:Hs.
    + rewrite cut_here in H by exact Hs. discriminate H.
    + assert (Hs' : startswith sep (String a (long ++ sep ++ rest)) = false).
      { rewrite <- Hs.
        change (String a (long ++ sep ++ rest))
          with (String a long ++ sep ++ rest)%string.
        change (String a (long ++ sep))
          with (String a long ++ sep)%string.
        rewrite <- app_assoc.
        apply startswith_long.
        rewrite length_app. lia. }
      rewrite cut_later in H by exact Hs.
      rewrite cut_later by exact Hs'.
      destruct (cut sep (long ++ sep)) as [[b af]|] eqn:Hc; [|discriminate H].
      injection H as Hb Haf. subst b af.
      rewrite (IH rest eq_refl). reflexivity.
Qed.

End PyStrFacts.

(** ** Dictionaries *)

Module DictFacts.
Import Dict.

Section Facts.
Context {V : Type}.

Lemma get_set (d : t V) (k k' : string) (v : V) :
  get (set d k v) k' = if String.eqb k k' then Some v else get d k'.
Proof.
  induction d as [|[k0 v0] d IH]; simpl.
  - reflexivity.
  - destruct (String.eqb k0 k) eqn:E0; simpl.
    + apply String.eqb_eq in E0. subst k0.
      destruct (String.eqb k k'); reflexivity.
    + destruct (String.eqb k0 k') eqn:E1.
      * apply String.eqb_eq in E1. subst k0.
        rewrite String.eqb_sym in E0. now rewrite E0.
      * exact IH.
Qed.

Lemma get_remove (d : t V) (k k' : string) :
  get (remove d k) k' = if String.eqb k k' then None else get d k'.
Proof.
  induction d as [|[k0 v0] d IH]; simpl.
  - now destruct (String.eqb k k').
  - destruct (String.eqb k0 k) eqn:E0; simpl.
    + apply String.eqb_eq in E0. subst k0. rewrite IH.
      destruct (String.eqb k k'); reflexivity.
    + destruct (String.eqb k0 k') eqn:E1.
      * apply String.eqb_eq in E1. subst k0.
        rewrite String.eqb_sym in E0. now rewrite E0.
      * exact IH.
Qed.

Lemma get_In (d : t V) (k : string) (v : V) :
  get d k = Some v -> In (k, v) d.
Proof.
  induction d as [|[k0 v0] d IH]; simpl; intros H.
  - discriminate.
  - destruct (String.eqb k0 k) eqn:E.
    + apply String.eqb_eq in E. injection H as ->. left. now subst.
    + right. auto.
Qed.

Lemma get_None (d : t V) (k : string) :
  get d k = None <-> ~ In k (keys d).
Proof.
  induction d as [|[k0 v0] d IH]; simpl.
  - tauto.
  - destruct (String.eqb k0 k) eqn:E.
    + apply String.eqb_eq in E. split; [discriminate | tauto].
    + apply String.eqb_neq in E. tauto.
Qed.

Lemma keys_set (d : t V) (k : string) (v : V) :
  keys (set d k v) = if contains d k then keys d else keys d ++ [k].
Proof.
  unfold contains.
  induction d as [|[k0 v0] d IH]; simpl.
  - reflexivity.
  - destruct (String.eqb k0 k) eqn:E; simpl.
    + reflexivity.
    + rewrite IH. now destruct (get d k).
Qed.

End Facts.
End DictFacts.

(** ** What the methods leave alone *)

Module ParserFacts.
Import ParserM Obs.

Lemma explain_subst_frame (conn : Connection) (cmd : Command.t)
  (l : list (string * string)) :
  forall st,
  let st' :=
    fold_left
      (fun st kv =>
         if name_in (snd kv) (Command.names cmd)
         then explain_substitution conn (fst kv) (snd kv) st
         else st) l st in
  self st' = self st /\ trace st' = trace st /\ next_oid st' = next_oid st.
Proof.
  induction l as [|kv l IH]; intros st; simpl.
  - auto.
  - destruct (IH (if name_in (snd kv) (Command.names cmd)
                  then explain_substitution conn (fst kv) (snd kv) st
                  else st)) as (H1 & H2 & H3).
    rewrite H1, H2, H3.
    destruct (name_in (snd kv) (Command.names cmd)); auto.
Qed.

Lemma notify_self conn f a st : self (notify conn f a st) = self st.
Proof. reflexivity. Qed.

Lemma notify_trace conn f a st : trace (notify conn f a st) = trace st.
Proof. reflexivity. Qed.

Lemma notify_next_oid conn f a st :
  next_oid (notify conn f a st) = next_oid st.
Proof. reflexivity. Qed.

(** [explain] only sends messages. *)
Lemma explain_frame (cmd : Command.t) (conn : Connection) (st : State) :
  self (explain cmd conn st) = self st /\
  trace (explain cmd conn st) = trace st /\
  next_oid (explain cmd conn st) = next_oid st.
Proof.
  unfold explain. cbv zeta.
  rewrite !notify_self, !notify_trace, !notify_next_oid.
  match goal with
  | |- context [fold_left ?f ?l ?s] =>
      destruct (explain_subst_frame conn cmd l s) as (H1 & H2 & H3)
  end.
  rewrite H1, H2, H3, notify_self, notify_trace, notify_next_oid. auto.
Qed.

Lemma explain_self cmd conn st : self (explain cmd conn st) = self st.
Proof. apply explain_frame. Qed.

Lemma explain_trace cmd conn st : trace (explain cmd conn st) = trace st.
Proof. apply explain_frame. Qed.

Lemma explain_next_oid cmd conn st :
  next_oid (explain cmd conn st) = next_oid st.
Proof. apply explain_frame. Qed.

Lemma fired_app f tr1 tr2 :
  fired f (tr1 ++ tr2) = fired f tr1 || fired f tr2.
Proof. apply existsb_app. Qed.

Lemma count_app f tr1 tr2 : count f (tr1 ++ tr2) = count f tr1 + count f tr2.
Proof. unfold count. now rewrite filter_app, length_app. Qed.

(** What one call of [invoke] adds to the state. *)
Lemma invoke_frame (cmd : Command.t) (caller : Caller.t) (n : nat)
  (st : State) :
  let r := invoke cmd caller n st in
  self (l_state (snd r)) = self st /\
  next_oid (l_state (snd r)) = next_oid st /\
  exists tr,
    trace (l_state (snd r)) = trace st ++ tr /\
    step_summary (fst r) n (l_commands (snd r)) tr /\
    l_commands (snd r) = n + 1 /\
    fired is_explain tr = false.
Proof.
  unfold invoke.
  destruct (fn_call (Command.func cmd) caller (world st)) as [o w].
  destruct o as [|[|cls|cls]]; simpl; (split; [reflexivity|]);
    (split; [reflexivity|]).
  - exists [EvCall (Command.oid cmd) caller Returned].
    repeat split; simpl; try reflexivity; try lia.
  - exists [EvCall (Command.oid cmd) caller (Raised DontStopException)].
    repeat split; simpl; try reflexivity; try lia.
  - eexists. split.
    { rewrite <- !List.app_assoc. simpl. reflexivity. }
    repeat split; simpl; try reflexivity; try lia.
  - exists [EvCall (Command.oid cmd) caller (Raised (BaseOnly cls))].
    repeat split; simpl; try reflexivity; try lia.
    exists cls, (Command.oid cmd), caller, []. auto.
Qed.

(** What one turn of the loop adds to the state. *)
Lemma attempt_frame (cmd : Command.t) (args : string) (v : Locals) :
  let r := attempt cmd args v in
  self (l_state (snd r)) = self (l_state v) /\
  next_oid (l_state (snd r)) = next_oid (l_state v) /\
  exists tr,
    trace (l_state (snd r)) = trace (l_state v) ++ tr /\
    step_summary (fst r) (l_commands v) (l_commands (snd r)) tr.
Proof.
  unfold attempt.
  destruct (Command.ok_for cmd (l_caller v)).
  - destruct (bind_args cmd args (l_caller v)) as [k|].
    + destruct (invoke_frame cmd k (l_commands v)
                  (emit (EvOkFor (Command.oid cmd) (l_caller v)) (l_state v)))
        as (Hs & Hn & tr & Ht & Hsum & Hc & He).
      simpl in *. rewrite Hs, Hn. split; [reflexivity|].
      split; [reflexivity|].
      exists (EvOkFor (Command.oid cmd) (l_caller v) :: tr).
      split.
      { rewrite Ht, <- List.app_assoc. reflexivity. }
      unfold step_summary, loop_summary in *.
      destruct Hsum as (H1 & H2 & H3 & H4 & H5).
      simpl. repeat split; auto.
      destruct (fst (invoke cmd k (l_commands v) _)) eqn:Hstep.
      * exact H5.
      * intros Heq. lia.
      * destruct H5 as (cls & oid & c & tr0 & -> & ->).
        exists cls, oid, c,
          (EvOkFor (Command.oid cmd) (l_caller v) :: tr0). auto.
    + cbv zeta. cbn [fst snd l_state l_commands l_caller].
      rewrite explain_self, explain_trace, explain_next_oid. simpl.
      split; [reflexivity|]. split; [reflexivity|].
      eexists. split.
      { rewrite <- List.app_assoc. simpl. reflexivity. }
      unfold step_summary, loop_summary. simpl. repeat split; auto.
  - simpl. split; [reflexivity|]. split; [reflexivity|].
    exists [EvOkFor (Command.oid cmd) (l_caller v)].
    unfold step_summary, loop_summary. simpl. repeat split; auto.
Qed.

(** What the whole loop adds to the state. *)
Lemma for_loop_frame (cmds : list Command.t) (args : string) :
  forall v,
  let r := for_loop cmds args v in
  self (l_state (snd r)) = self (l_state v) /\
  next_oid (l_state (snd r)) = next_oid (l_state v) /\
  exists tr,
    trace (l_state (snd r)) = trace (l_state v) ++ tr /\
    loop_summary (fst r) (l_commands v) (l_commands (snd r)) tr.
Proof.
  induction cmds as [|cmd rest IH]; intros v; simpl.
  - split; [reflexivity|]. split; [reflexivity|].
    exists []. rewrite List.app_nil_r.
    unfold loop_summary. simpl. repeat split; auto.
  - destruct (attempt_frame cmd args v) as (Hs & Hn & tr & Ht & Hsum).
    destruct (attempt cmd args v) as [[| |e] v'] eqn:Ha; simpl in *.
    + destruct (IH v') as (Hs' & Hn' & tr' & Ht' & Hsum').
      rewrite Hs', Hn', Hs, Hn. split; [reflexivity|].
      split; [reflexivity|].
      exists (tr ++ tr'). split.
      { rewrite Ht', Ht, List.app_assoc. reflexivity. }
      unfold step_summary, loop_summary in *.
      destruct Hsum as (A1 & A2 & A3 & A4 & A5).
      destruct Hsum' as (B1 & B2 & B3 & B4 & B5).
      rewrite !fired_app, !count_app, A1, A2, B1, B2, A3, B3.
      repeat split; auto; try lia.
      destruct (fst (for_loop rest args v')).
      * rewrite ?fired_app, A5, B5. reflexivity.
      * intros Heq. rewrite ?fired_app, B5 by lia. apply orb_true_r.
      * destruct B5 as (cls & oid & c & tr0 & -> & ->).
        exists cls, oid, c, (tr ++ tr0).
        rewrite List.app_assoc. auto.
    + rewrite Hs, Hn. split; [reflexivity|]. split; [reflexivity|].
      exists tr. auto.
    + rewrite Hs, Hn. split; [reflexivity|]. split; [reflexivity|].
      exists tr. auto.
Qed.

Lemma count_not_fired f tr : fired f tr = false -> count f tr = 0.
Proof.
  unfold fired, count.
  induction tr as [|x l IH]; simpl; intros H; [reflexivity|].
  apply orb_false_iff in H. destruct H as [Hx Hl].
  rewrite Hx. auto.
Qed.

Lemma split_None (p : Parser) (line : string) :
  split p line = None -> command_separator p = EmptyString.
Proof.
  unfold split, PyStr.split1.
  destruct (command_separator p) as [|a sep]; [reflexivity|].
  destruct (PyStr.cut (String a sep) line) as [[b af]|]; discriminate.
Qed.

(** [handle_line] step by step: the state after the pre-command hook. *)
Lemma handle_line_unfold (conn : Connection) (line : string) (st : State) :
  let text := substitute (self st) line in
  let caller := Caller.new conn text in
  let st1 :=
    set_world (snd (m_pre_command (self st) caller (world st)))
      (emit (EvPreCommand caller) st) in
  handle_line conn line st =
  if fst (m_pre_command (self st) caller (world st)) then
    match split (self st) text with
    | None => (Thrown (StdError "ValueError"), st1)
    | Some (command, args) =>
        let caller' :=
          Caller.set_args_str args (Caller.set_command command caller) in
        let st2 := emit (EvGetCommands command) st1 in
        match
          for_loop (get_commands (self st) command) args
            (MkLocals caller' 0 st2)
        with
        | (Exhausted, v) =>
            (Normal (result (l_commands v)),
             match l_commands v with
             | O =>
                 set_world
                   (m_huh (self (l_state v)) (l_caller v)
                      (world (l_state v)))
                   (emit (EvHuh (l_caller v)) (l_state v))
             | S _ => l_state v
             end)
        | (Broke, v) => (Normal (result (l_commands v)), l_state v)
        | (Propagated e, v) => (Thrown e, l_state v)
        end
    end
  else (Normal None, st1).
Proof.
  unfold handle_line. cbv zeta.
  cbn [self world emit set_world].
  destruct (m_pre_command (self st) _ (world st)) as [go w].
  cbn [fst snd]. destruct go; cbn [negb]; reflexivity.
Qed.

(** What a call of [handle_line] adds to the trace, and how it ends. *)
Lemma handle_line_summary (conn : Connection) (line : string) (st : State) :
  let r := handle_line conn line st in
  self (snd r) = self st /\
  next_oid (snd r) = next_oid st /\
  exists tr,
    trace (snd r) = trace st ++ tr /\
    count is_on_error tr = count is_fault tr /\
    (fired is_huh tr = true <->
     fst r = Normal None /\ fired is_get_commands tr = true /\
     fired is_explain tr = false) /\
    count is_huh tr <= 1 /\
    (forall e, fst r = Thrown e ->
       (e = StdError "ValueError" /\
        command_separator (self st) = EmptyString) \/
       (exists cls oid c tr0,
          e = BaseOnly cls /\
          tr = tr0 ++ [EvCall oid c (Raised (BaseOnly cls))])).
Proof.
  cbv zeta. rewrite handle_line_unfold. cbv zeta.
  set (caller := Caller.new conn (substitute (self st) line)).
  destruct (m_pre_command (self st) caller (world st)) as [go w].
  cbn [fst snd].
  destruct go.
  2:{ simpl. split; [reflexivity|]. split; [reflexivity|].
      exists [EvPreCommand caller]. simpl.
      repeat split; auto; try (intros; intuition discriminate). }
  destruct (split (self st) (substitute (self st) line))
    as [[tok args]|] eqn:Hsplit.
  2:{ simpl. split; [reflexivity|]. split; [reflexivity|].
      exists [EvPreCommand caller]. simpl.
      repeat split; auto; try (intros; intuition discriminate).
      intros e He. left. injection He as <-.
      split; [reflexivity | eapply split_None; eauto]. }
  match goal with
  | |- context [for_loop ?l ?a ?v0] =>
      destruct (for_loop_frame l a v0) as (Hs & Hn & ltr & Ht & Hsum);
      destruct (for_loop l a v0) as [ex v] eqn:Hloop
  end.
  cbn [fst snd l_state l_commands self next_oid emit set_world trace] in *.
  destruct Hsum as (A1 & A2 & A3 & A4 & A5).
  pose proof (count_not_fired _ _ A1) as Hz.
  set (hd := [EvPreCommand caller; EvGetCommands tok]).
  assert (Hhd : forall tl,
             ((trace st ++ [EvPreCommand caller]) ++ [EvGetCommands tok])
               ++ tl = trace st ++ hd ++ tl).
  { intros tl. rewrite <- !List.app_assoc. reflexivity. }
  destruct ex as [| |e].
  - destruct (l_commands v) as [|n] eqn:Hn0.
    + cbn [fst snd self next_oid trace emit set_world result].
      split; [exact Hs|]. split; [exact Hn|].
      exists (hd ++ ltr ++ [EvHuh (l_caller v)]).
      split.
      { rewrite Ht, <- Hhd, <- !List.app_assoc. reflexivity. }
      rewrite !fired_app, !count_app, A1, A2, A3, A5, Hz.
      subst hd. cbn.
      repeat split; auto; try discriminate.
    + cbn [fst snd self next_oid trace emit set_world result].
      split; [exact Hs|]. split; [exact Hn|].
      exists (hd ++ ltr).
      split.
      { rewrite Ht, <- Hhd. reflexivity. }
      rewrite !fired_app, !count_app, A1, A2, A3, A5, Hz.
      subst hd. cbn.
      repeat split; auto; try discriminate;
        try (intros; intuition discriminate).
  - cbn [fst snd self next_oid trace emit set_world result].
    split; [exact Hs|]. split; [exact Hn|].
    exists (hd ++ ltr).
    split.
    { rewrite Ht, <- Hhd. reflexivity. }
    rewrite !fired_app, !count_app, A1, A2, A3, Hz.
    subst hd. cbn.
    repeat split; auto; try discriminate;
      try (intros; intuition discriminate).
    intros (Hr & _ & He).
    destruct (l_commands v) as [|n]; [|discriminate Hr].
    rewrite A5 in He by lia. discriminate He.
  - cbn [fst snd self next_oid trace emit set_world result].
    split; [exact Hs|]. split; [exact Hn|].
    exists (hd ++ ltr).
    split.
    { rewrite Ht, <- Hhd. reflexivity. }
    rewrite !fired_app, !count_app, A1, A2, A3, Hz.
    subst hd. cbn.
    repeat split; auto; try discriminate;
      try (intros; intuition discriminate).
    intros e' He'. injection He' as <-. right.
    destruct A5 as (cls & oid & c & tr0 & -> & ->).
    exists cls, oid, c, (EvPreCommand caller :: EvGetCommands tok :: tr0).
    auto.
Qed.

Lemma handle_line_enter (conn : Connection) (line : string) (st : State)
  (w : World) (name args : string) :
  let text := substitute (self st) line in
  m_pre_command (self st) (Caller.new conn text) (world st) = (true, w) ->
  split (self st) text = Some (name, args) ->
  handle_line conn line st =
  match
    for_loop (get_commands (self st) name) args
      (entry conn text name args w st)
  with
  | (Exhausted, v) =>
      (Normal (result (l_commands v)),
       match l_commands v with
       | O =>
           set_world
             (m_huh (self (l_state v)) (l_caller v) (world (l_state v)))
             (emit (EvHuh (l_caller v)) (l_state v))
       | S _ => l_state v
       end)
  | (Broke, v) => (Normal (result (l_commands v)), l_state v)
  | (Propagated e, v) => (Thrown e, l_state v)
  end.
Proof.
  cbv zeta. intros Hpre Hsplit.
  rewrite handle_line_unfold. cbv zeta.
  rewrite Hpre, Hsplit. reflexivity.
Qed.

(** The loop over [pre ++ post] is the loop over [post] resumed where the
    loop over [pre] ran out. *)
Lemma for_loop_app (pre post : list Command.t) (args : string) :
  forall v v',
  for_loop pre args v = (Exhausted, v') ->
  for_loop (pre ++ post) args v = for_loop post args v'.
Proof.
  induction pre as [|cmd pre IH]; intros v v' H; simpl in *.
  - now injection H as ->.
  - destruct (attempt cmd args v) as [[| |e] v1]; try discriminate.
    now apply IH.
Qed.

Lemma explain_subst_outbox (conn : Connection) (cmd : Command.t)
  (l : list (string * string)) :
  forall st,
  let st' :=
    fold_left
      (fun st kv =>
         if name_in (snd kv) (Command.names cmd)
         then explain_substitution conn (fst kv) (snd kv) st
         else st) l st in
  world st' =
  {| outbox :=
       outbox (world st)
       ++ map
            (fun kv =>
               (conn,
                MkMessage
                  ("Instead of typing " ++ PyStr.dquote ++ "%s%s"
                     ++ PyStr.dquote ++ ", you can type %s.")
                  [snd kv; command_separator (self st); fst kv]))
            (filter (fun kv => name_in (snd kv) (Command.names cmd)) l);
     game := game (world st) |}.
Proof.
  induction l as [|kv l IH]; intros st; simpl.
  - rewrite List.app_nil_r. now destruct (world st).
  - rewrite IH.
    destruct (name_in (snd kv) (Command.names cmd)); simpl.
    + rewrite <- List.app_assoc. reflexivity.
    + reflexivity.
Qed.

(** The messages of [explain], in the order they are sent. *)
Lemma explain_world (cmd : Command.t) (conn : Connection) (st : State) :
  world (explain cmd conn st) =
  {| outbox := outbox (world st) ++ explanation (self st) cmd conn;
     game := game (world st) |}.
Proof.
  unfold explain, explanation. cbv zeta.
  unfold notify at 1 2. cbn [world set_world notify_world outbox game].
  rewrite explain_subst_outbox. cbn [outbox game].
  rewrite notify_self. unfold notify, notify_world.
  cbn [world set_world outbox game].
  rewrite <- !List.app_assoc. reflexivity.
Qed.

End ParserFacts.

(* ================================================================= *)
(** * Line resolution *)

Import ParserM Obs ParserFacts.

Lemma handle_line_count_positive (conn : Connection) (line : string)
  (st : State) (n : nat) :
  fst (handle_line conn line st) = Normal (Some n) -> 0 < n.
Proof.
  rewrite handle_line_unfold. cbv zeta.
  destruct (fst (m_pre_command _ _ _)); [|discriminate].
  destruct (split _ _) as [[tok args]|]; [|discriminate].
  destruct (for_loop _ _ _) as [[| |e] v]; simpl;
    try discriminate;
    destruct (l_commands v); simpl; intros H; try discriminate;
    injection H as <-; lia.
Qed.

(** C7.  When the pre-command hook returns false for the caller built from
    the (substituted) line, [handle_line] returns [None] at once: the world
    is the one the hook left, the only call made is the call of the hook,
    and the parser is untouched. *)
Theorem pre_command_veto (conn : Connection) (line : string) (st : State)
  (w : World) :
  let caller := Caller.new conn (substitute (self st) line) in
  m_pre_command (self st) caller (world st) = (false, w) ->
  handle_line conn line st =
  (Normal None,
   {| self := self st; world := w;
      trace := trace st ++ [EvPreCommand caller];
      next_oid := next_oid st |}).
Proof.
  cbv zeta. intros H. rewrite handle_line_unfold. cbv zeta.
  rewrite H. reflexivity.
Qed.

Lemma pre_command_veto_witness :
  m_pre_command Sample.veto_parser (Caller.new 7 "foo bar") empty_world
  = (false, empty_world) /\
  handle_line 7 "foo bar" (init Sample.veto_parser) =
  (Normal None,
   {| self := Sample.veto_parser; world := empty_world;
      trace := [EvPreCommand (Caller.new 7 "foo bar")];
      next_oid := 0 |}).
Proof.
  split.
  - reflexivity.
  - apply (pre_command_veto 7 "foo bar" (init Sample.veto_parser)
             empty_world).
    reflexivity.
Defined.

(** C1, as the code has it.  Two commands under one name, both allowed and
    both accepting the arguments; the first handler raises
    [DontStopException], the second returns.  Then [handle_line] returns 2:
    each candidate is counted before its handler is called.  The world is
    the one the second handler left, starting from the one the first handler
    left, and the calls are made in this order. *)
Theorem continuation_then_completion (conn : Connection) (line : string)
  (st : State) (name args : string) (c1 c2 : Command.t) (k1 k2 : Caller.t)
  (w0 w1 w2 : World) :
  let text := substitute (self st) line in
  let caller :=
    Caller.set_args_str args (Caller.set_command name (Caller.new conn text))
  in
  m_pre_command (self st) (Caller.new conn text) (world st) = (true, w0) ->
  split (self st) text = Some (name, args) ->
  get_commands (self st) name = [c1; c2] ->
  Command.ok_for c1 caller = true ->
  bind_args c1 args caller = Some k1 ->
  fn_call (Command.func c1) k1 w0 = (Raised DontStopException, w1) ->
  Command.ok_for c2 k1 = true ->
  bind_args c2 args k1 = Some k2 ->
  fn_call (Command.func c2) k2 w1 = (Returned, w2) ->
  handle_line conn line st =
  (Normal (Some 2),
   {| self := self st; world := w2;
      trace :=
        trace st
        ++ [EvPreCommand (Caller.new conn text);
            EvGetCommands name;
            EvOkFor (Command.oid c1) caller;
            EvCall (Command.oid c1) k1 (Raised DontStopException);
            EvOkFor (Command.oid c2) k1;
            EvCall (Command.oid c2) k2 Returned];
      next_oid := next_oid st |}).
Proof.
  cbv zeta. intros Hpre Hsplit Hget Hok1 Hb1 Hf1 Hok2 Hb2 Hf2.
  rewrite (handle_line_enter _ _ _ _ _ _ Hpre Hsplit), Hget.
  unfold entry, for_loop, attempt, invoke.
  cbn [l_caller l_commands l_state world set_world emit].
  rewrite Hok1, Hb1, Hf1.
  cbn [l_caller l_commands l_state world set_world emit].
  rewrite Hok2, Hb2, Hf2.
  cbn [l_caller l_commands l_state plus result].
  state_eq.
Qed.

Lemma continuation_then_completion_witness :
  fst (handle_line 7 "look" Sample.look_twice) = Normal (Some 2) /\
  game (world (snd (handle_line 7 "look" Sample.look_twice)))
  = ["first"; "second"].
Proof.
  set (c1 := nth 0 (get_commands (self Sample.look_twice) "look")
               (Command.Make 0 (Sample.func "" (Sample.handler "" Returned))
                  [] "" "" None (fun _ => true) [])).
  set (c2 := nth 1 (get_commands (self Sample.look_twice) "look") c1).
  set (k := Caller.set_args_str ""
              (Caller.set_command "look" (Caller.new 7 "look"))).
  set (k' := Caller.set_kwargs [] (Caller.set_args [] k)).
  rewrite (continuation_then_completion 7 "look" Sample.look_twice
             "look" "" c1 c2 k' (Caller.set_kwargs [] (Caller.set_args [] k'))
             empty_world
             {| outbox := []; game := ["first"] |}
             {| outbox := []; game := ["first"; "second"] |});
    try reflexivity.
  split; reflexivity.
Defined.

(** C1, counterexample.  In [Sample.look_twice] two commands are registered
    under [look]; the first handler always raises [DontStopException] after
    writing [first], the second always returns after writing [second]; both
    are allowed for everyone and have no pattern.  Both side effects are
    seen, but the matched-count returned is 2, not 1. *)
Lemma look_twice_counts_two :
  List.length (get_commands (self Sample.look_twice) "look") = 2 /\
  game (world (snd (handle_line 7 "look" Sample.look_twice)))
  = ["first"; "second"] /\
  fst (handle_line 7 "look" Sample.look_twice) = Normal (Some 2) /\
  fst (handle_line 7 "look" Sample.look_twice) <> Normal (Some 1).
Proof.
  repeat split; try reflexivity.
  vm_compute. discriminate.
Qed.

(** C4.  The candidates under the resolved name are [pre ++ cmd :: post];
    the iteration gets through [pre] and reaches [cmd], which is allowed and
    declares a pattern that does not match the arguments.  Then
    [handle_line] calls [explain] for [cmd] and leaves the loop: the result
    is that of the iteration so far, the state is the one after [pre] with
    the permission test and the explanation of [cmd] added, and nothing of
    it depends on [post].  The messages sent are the explanation of [cmd],
    to the connection of the caller. *)
Theorem no_match_stops_iteration (conn : Connection) (line : string)
  (st : State) (w0 : World) (name args : string)
  (pre post : list Command.t) (cmd : Command.t) (re : Pattern) (v : Locals) :
  let text := substitute (self st) line in
  let target := Caller.connection (l_caller v) in
  m_pre_command (self st) (Caller.new conn text) (world st) = (true, w0) ->
  split (self st) text = Some (name, args) ->
  get_commands (self st) name = pre ++ cmd :: post ->
  for_loop pre args (entry conn text name args w0 st) = (Exhausted, v) ->
  Command.ok_for cmd (l_caller v) = true ->
  Command.args_regexp cmd = Some re ->
  re args = None ->
  handle_line conn line st =
  (Normal (result (l_commands v)),
   explain cmd target
     (emit (EvExplain (Command.oid cmd) target)
        (emit (EvOkFor (Command.oid cmd) (l_caller v)) (l_state v)))) /\
  trace (snd (handle_line conn line st)) =
  trace (l_state v)
  ++ [EvOkFor (Command.oid cmd) (l_caller v);
      EvExplain (Command.oid cmd) target] /\
  outbox (world (snd (handle_line conn line st))) =
  outbox (world (l_state v)) ++ explanation (self (l_state v)) cmd target.
Proof.
  cbv zeta. intros Hpre Hsplit Hget Hloop Hok Hre Hno.
  assert (Heq : handle_line conn line st =
    (Normal (result (l_commands v)),
     explain cmd (Caller.connection (l_caller v))
       (emit (EvExplain (Command.oid cmd) (Caller.connection (l_caller v)))
          (emit (EvOkFor (Command.oid cmd) (l_caller v)) (l_state v))))).
  { rewrite (handle_line_enter _ _ _ _ _ _ Hpre Hsplit), Hget.
    rewrite (for_loop_app _ _ _ _ _ Hloop).
    unfold for_loop, attempt, bind_args. cbv zeta.
    rewrite Hok, Hre, Hno. reflexivity. }
  rewrite Heq. cbn [snd].
  split; [reflexivity|]. split.
  - rewrite explain_trace. unfold emit. cbn [trace].
    rewrite <- List.app_assoc. reflexivity.
  - rewrite explain_world. reflexivity.
Qed.

(** In [Inv.say_three] the line is a lone double quote, so the argument text is
    empty.  The first command counts as matched and passes the line on; the
    second one's pattern fails, it is explained and the loop ends; the
    third command, which would accept the line, is not asked and does not
    run. *)
Lemma no_match_stops_iteration_witness :
  let caller :=
    Caller.set_args_str "" (Caller.set_command "say" (Caller.new 7 "say ")) in
  let k := Caller.set_kwargs [] (Caller.set_args [] caller) in
  let third :=
    nth 2 (get_commands (self Inv.say_three) "say")
      (Command.Make 9 (Sample.func "" (Sample.handler "" Returned))
         [] "" "" None (fun _ => false) []) in
  List.length (get_commands (self Inv.say_three) "say") = 3 /\
  Command.ok_for third k = true /\
  bind_args third "" k <> None /\
  fst (handle_line 7 PyStr.dquote Inv.say_three) = Normal (Some 1) /\
  trace (snd (handle_line 7 PyStr.dquote Inv.say_three)) =
  [EvPreCommand (Caller.new 7 "say ");
   EvGetCommands "say";
   EvOkFor 0 caller;
   EvCall 0 k (Raised DontStopException);
   EvOkFor 1 k;
   EvExplain 1 7] /\
  game (world (snd (handle_line 7 PyStr.dquote Inv.say_three))) = ["first"].
Proof.
  cbv zeta.
  set (dflt := Command.Make 9 (Sample.func "" (Sample.handler "" Returned))
                 [] "" "" None (fun _ => false) []).
  set (c1 := nth 0 (get_commands (self Inv.say_three) "say") dflt).
  set (c2 := nth 1 (get_commands (self Inv.say_three) "say") dflt).
  set (c3 := nth 2 (get_commands (self Inv.say_three) "say") dflt).
  set (v := snd (for_loop [c1] ""
                   (entry 7 "say " "say" "" empty_world Inv.say_three))).
  destruct (no_match_stops_iteration 7 PyStr.dquote Inv.say_three
              empty_world "say" "" [c1] [c3] c2 Sample.some_text v)
    as (H1 & H2 & _); try reflexivity.
  rewrite H2, H1.
  split; [reflexivity|]. split; [reflexivity|].
  split; [discriminate|].
  split; [reflexivity|]. split; reflexivity.
Defined.

(** In terms of the loop: the catch-all hook is called exactly when the
    loop runs out of candidates with no command matched. *)
Lemma huh_iff_loop (conn : Connection) (line : string) (st : State)
  (w : World) (name args : string) (tr : list Event) :
  let text := substitute (self st) line in
  m_pre_command (self st) (Caller.new conn text) (world st) = (true, w) ->
  split (self st) text = Some (name, args) ->
  trace (snd (handle_line conn line st)) = trace st ++ tr ->
  let r :=
    for_loop (get_commands (self st) name) args
      (entry conn text name args w st) in
  fired is_huh tr = true <-> fst r = Exhausted /\ l_commands (snd r) = 0.
Proof.
  cbv zeta. intros Hpre Hsplit Ht.
  rewrite (handle_line_enter _ _ _ _ _ _ Hpre Hsplit) in Ht.
  match goal with
  | |- context [for_loop ?l ?a ?v0] =>
      destruct (for_loop_frame l a v0) as (_ & _ & ltr & Hl & Hsum);
      destruct (for_loop l a v0) as [ex v]
  end.
  unfold entry in Hl.
  cbn [fst snd l_state l_commands trace emit set_world] in *.
  destruct Hsum as (A1 & _).
  assert (Hno : forall tl, trace (l_state v) = trace st ++ tl ->
                           fired is_huh tl = false).
  { intros tl Htl. rewrite Htl, <- !List.app_assoc in Hl.
    apply List.app_inv_head in Hl. subst tl.
    rewrite !fired_app, A1. reflexivity. }
  destruct ex as [| |e]; cbn [snd] in Ht.
  - destruct (l_commands v) as [|n].
    + cbn [trace emit set_world] in Ht.
      rewrite Hl, <- !List.app_assoc in Ht.
      apply List.app_inv_head in Ht. subst tr.
      rewrite !fired_app. cbn. rewrite !orb_true_r. tauto.
    + rewrite (Hno _ Ht). split; [discriminate|]. intros [_ H]. discriminate H.
  - rewrite (Hno _ Ht). split; [discriminate|]. intros [H _]. discriminate H.
  - rewrite (Hno _ Ht). split; [discriminate|]. intros [H _]. discriminate H.
Qed.

(** C3, as the code has it.  The catch-all hook is called if and only if
    [handle_line] returns no count, the pre-command hook let the line
    through (the candidates were fetched) and no explanation was emitted,
    that is, if and only if the iteration ran out of candidates with a
    matched-count of zero (last part, in terms of the loop of a line that
    got past the pre-command hook and [split]).  It is called at most once,
    and never when a count is returned; a returned count is never zero. *)
Theorem huh_iff_exhausted_unmatched (conn : Connection) (line : string)
  (st : State) :
  exists tr,
    trace (snd (handle_line conn line st)) = trace st ++ tr /\
    (fired is_huh tr = true <->
     fst (handle_line conn line st) = Normal None /\
     fired is_get_commands tr = true /\
     fired is_explain tr = false) /\
    count is_huh tr <= 1 /\
    (forall n, fst (handle_line conn line st) = Normal (Some n) ->
               0 < n /\ fired is_huh tr = false) /\
    (forall w name args,
       let text := substitute (self st) line in
       m_pre_command (self st) (Caller.new conn text) (world st) = (true, w) ->
       split (self st) text = Some (name, args) ->
       let r :=
         for_loop (get_commands (self st) name) args
           (entry conn text name args w st) in
       fired is_huh tr = true <->
       fst r = Exhausted /\ l_commands (snd r) = 0).
Proof.
  destruct (handle_line_summary conn line st)
    as (_ & _ & tr & Ht & _ & Hiff & Hone & _).
  exists tr.
  split; [exact Ht|]. split; [exact Hiff|]. split; [exact Hone|].
  split.
  - intros n Hn. split.
    + eapply handle_line_count_positive; eauto.
    + destruct (fired is_huh tr) eqn:Hh; [|reflexivity].
      destruct Hiff as [Hiff _]. destruct (Hiff eq_refl) as (Hr & _).
      rewrite Hr in Hn. discriminate Hn.
  - intros w name args text Hpre Hsplit.
    exact (huh_iff_loop conn line st w name args tr Hpre Hsplit Ht).
Qed.

(** The empty registry and the line [foo bar]: the token [foo] has no
    candidate, the catch-all hook is called. *)
Lemma huh_iff_exhausted_unmatched_witness :
  fired is_huh (trace (snd (handle_line 7 "foo bar" (init new_parser))))
  = true /\
  outbox (world (snd (handle_line 7 "foo bar" (init new_parser))))
  = [(7, MkMessage "I don't understand that." [])].
Proof.
  destruct (huh_iff_exhausted_unmatched 7 "foo bar" (init new_parser))
    as (tr & Ht & _ & _ & _ & Hloop).
  split; [|reflexivity].
  cbn [init trace app] in Ht. rewrite Ht.
  apply (Hloop empty_world "foo" "bar" eq_refl eq_refl).
  split; reflexivity.
Defined.

(** C3, counterexample.  The parser has the command [say] with pattern [.+]
    and the substitution of the double quote by [say]; the line is a lone
    double quote.  The pattern does not match the empty remainder: the
    command is explained, the matched-count is zero, [handle_line] returns
    no count, and the catch-all hook is not called. *)
Lemma explained_but_no_huh :
  let r := handle_line 7 PyStr.dquote Sample.say_state in
  l_commands
    (snd (for_loop (get_commands (self Sample.say_state) "say") ""
            (entry 7 "say " "say" "" empty_world Sample.say_state))) = 0 /\
  fst r = Normal None /\
  fired is_explain (trace (snd r)) = true /\
  fired is_huh (trace (snd r)) = false /\
  ~ (fired is_huh (trace (snd r)) = true <-> fst r = Normal None).
Proof.
  cbv zeta.
  assert (H : fired is_huh
                (trace (snd (handle_line 7 PyStr.dquote Sample.say_state)))
              = false) by reflexivity.
  repeat split; try reflexivity.
  intros [_ Hback]. rewrite Hback in H; [discriminate H | reflexivity].
Qed.







(** ** Substitution *)

(** The first two calls [handle_line] makes: the pre-command hook, with the
    line after substitution as the text of the caller, and, when the hook
    lets the line through, the lookup of the candidates of the token that
    [split] finds in that same text. *)
Lemma handle_line_head (conn : Connection) (line : string) (st : State) :
  let text := substitute (self st) line in
  exists tr,
    trace (snd (handle_line conn line st))
    = trace st ++ EvPreCommand (Caller.new conn text) :: tr /\
    (forall w tok args,
       m_pre_command (self st) (Caller.new conn text) (world st) = (true, w) ->
       split (self st) text = Some (tok, args) ->
       exists tr', tr = EvGetCommands tok :: tr').
Proof.
  cbv zeta. rewrite handle_line_unfold. cbv zeta.
  set (caller := Caller.new conn (substitute (self st) line)).
  destruct (m_pre_command (self st) caller (world st)) as [go w0].
  cbn [fst snd]. destruct go.
  2:{ exists []. split; [reflexivity|]. intros w tok args H. discriminate H. }
  destruct (split (self st) (substitute (self st) line))
    as [[tok args]|] eqn:Hsplit.
  2:{ exists []. split; [reflexivity|]. intros w tok args _ H.
      discriminate H. }
  match goal with
  | |- context [for_loop ?l ?a ?v0] =>
      destruct (for_loop_frame l a v0) as (_ & _ & ltr & Ht & _);
      destruct (for_loop l a v0) as [ex v]
  end.
  cbn [fst snd l_state trace emit set_world] in Ht.
  assert (Hall : exists tl,
             trace
               (snd
                  match ex with
                  | Exhausted =>
                      (Normal (result (l_commands v)),
                       match l_commands v with
                       | O =>
                           set_world
                             (m_huh (self (l_state v)) (l_caller v)
                                (world (l_state v)))
                             (emit (EvHuh (l_caller v)) (l_state v))
                       | S _ => l_state v
                       end)
                  | Broke => (Normal (result (l_commands v)), l_state v)
                  | Propagated e => (Thrown e, l_state v)
                  end)
             = trace (l_state v) ++ tl).
  { destruct ex; cbn [snd].
    - destruct (l_commands v).
      + exists [EvHuh (l_caller v)]. reflexivity.
      + exists []. now rewrite List.app_nil_r.
    - exists []. now rewrite List.app_nil_r.
    - exists []. now rewrite List.app_nil_r. }
  destruct Hall as [tl Htl].
  exists (EvGetCommands tok :: ltr ++ tl). split.
  - rewrite Htl, Ht, <- !List.app_assoc. reflexivity.
  - intros w tok' args' _ H. injection H as <- <-.
    eexists. reflexivity.
Qed.

(** [split] on a text that starts with [long], then the separator: when the
    separator does not occur earlier, the token is [long]. *)
Lemma split_long (p : Parser) (long rest : string) :
  command_separator p <> EmptyString ->
  PyStr.cut (command_separator p) (long ++ command_separator p)
  = Some (long, EmptyString) ->
  split p (long ++ command_separator p ++ rest) = Some (long, rest).
Proof.
  intros Hne Hcut. unfold split, PyStr.split1.
  destruct (command_separator p) as [|a sep] eqn:Hsep; [congruence|].
  rewrite (PyStrFacts.cut_extend _ _ rest Hcut). reflexivity.
Qed.

(** C6, as the code has it.  When the first character of the line is a key
    of the substitution table, the line becomes the long form, the
    separator and the rest of the line: this is the text of the caller.
    The token resolved is the long form provided the separator is not empty
    and does not occur in the long form followed by the separator before
    its end.  When the line is empty or its first character is not a key,
    the text of the caller is the line, and the token is the one [split]
    finds in the line. *)
Theorem substitution_expands_first_character (conn : Connection)
  (line : string) (st : State) :
  let p := self st in
  let sep := command_separator p in
  (forall c rest long,
     line = String c rest ->
     Dict.get (command_substitutions p) (String c EmptyString) = Some long ->
     let text := (long ++ sep ++ rest)%string in
     exists tr,
       trace (snd (handle_line conn line st))
       = trace st ++ EvPreCommand (Caller.new conn text) :: tr /\
       (forall w,
          m_pre_command p (Caller.new conn text) (world st) = (true, w) ->
          sep <> EmptyString ->
          PyStr.cut sep (long ++ sep) = Some (long, EmptyString) ->
          split p text = Some (long, rest) /\
          exists tr', tr = EvGetCommands long :: tr')) /\
  ((line = EmptyString \/
    exists c rest,
      line = String c rest /\
      Dict.get (command_substitutions p) (String c EmptyString) = None) ->
   exists tr,
     trace (snd (handle_line conn line st))
     = trace st ++ EvPreCommand (Caller.new conn line) :: tr /\
     (forall w tok args,
        m_pre_command p (Caller.new conn line) (world st) = (true, w) ->
        split p line = Some (tok, args) ->
        exists tr', tr = EvGetCommands tok :: tr')).
Proof.
  cbv zeta. split.
  - intros c rest long Hline Hget.
    destruct (handle_line_head conn line st) as (tr & Ht & Htok).
    assert (Hsub : substitute (self st) line
                   = (long ++ command_separator (self st) ++ rest)%string).
    { subst line. unfold substitute. now rewrite Hget. }
    rewrite Hsub in Ht, Htok.
    exists tr. split; [exact Ht|].
    intros w Hpre Hne Hcut.
    pose proof (split_long (self st) long rest Hne Hcut) as Hs.
    split; [exact Hs|]. exact (Htok w long rest Hpre Hs).
  - intros Hline.
    destruct (handle_line_head conn line st) as (tr & Ht & Htok).
    assert (Hsub : substitute (self st) line = line).
    { destruct Hline as [-> | (c & rest & -> & Hget)].
      - reflexivity.
      - unfold substitute. now rewrite Hget. }
    rewrite Hsub in Ht, Htok.
    exists tr. split; [exact Ht | exact Htok].
Qed.

Lemma substitution_expands_first_character_witness :
  exists tr,
    trace (snd (handle_line 7 "sx" (init Sample.alias_parser)))
    = EvPreCommand (Caller.new 7 "say x") :: EvGetCommands "say" :: tr.
Proof.
  destruct (proj1 (substitution_expands_first_character 7 "sx"
                     (init Sample.alias_parser))
              "s"%char "x" "say" eq_refl eq_refl) as (tr & Ht & Htok).
  destruct (Htok empty_world eq_refl) as (_ & tr' & ->).
  - discriminate.
  - reflexivity.
  - exists tr'. exact Ht.
Defined.

(** C6, counterexample.  The substitution table maps [n] to [go north] and
    the separator is a space.  The line [n] becomes [go north ] and the
    token resolved is [go], not the long form. *)
Lemma long_form_with_separator :
  let p := Sample.alias_parser in
  Dict.get (command_substitutions p) "n" = Some "go north" /\
  substitute p "n" = "go north " /\
  split p (substitute p "n") = Some ("go", "north ") /\
  nth_error (trace (snd (handle_line 7 "n" (init p)))) 1
  = Some (EvGetCommands "go") /\
  "go" <> "go north".
Proof.
  cbv zeta. repeat split; try reflexivity. discriminate.
Qed.

(** C10.  The line [String c rest] whose first character is a key with long
    form [long] is handled as [long ++ sep ++ rest], whatever [long] and the
    separator start with: that text goes to the pre-command hook, and the
    token looked up is the one [split] finds in that very text.  No second
    substitution takes place, also when the text starts with a key again. *)
Theorem substitution_applied_once (conn : Connection) (c : ascii)
  (rest long : string) (st : State) :
  let p := self st in
  let text := (long ++ command_separator p ++ rest)%string in
  Dict.get (command_substitutions p) (String c EmptyString) = Some long ->
  exists tr,
    trace (snd (handle_line conn (String c rest) st))
    = trace st ++ EvPreCommand (Caller.new conn text) :: tr /\
    (forall w tok args,
       m_pre_command p (Caller.new conn text) (world st) = (true, w) ->
       split p text = Some (tok, args) ->
       exists tr', tr = EvGetCommands tok :: tr').
Proof.
  cbv zeta. intros Hget.
  destruct (handle_line_head conn (String c rest) st) as (tr & Ht & Htok).
  unfold substitute in Ht, Htok. rewrite Hget in Ht, Htok.
  exists tr. split; [exact Ht | exact Htok].
Qed.

(** The long form [say] starts with the key [s]: the line [sx] becomes
    [say x] and stays so, although [substitute] would change it again. *)
Lemma substitution_applied_once_witness :
  substitute Sample.alias_parser "say x" = "say ay x" /\
  exists tr,
    trace (snd (handle_line 7 "sx" (init Sample.alias_parser)))
    = EvPreCommand (Caller.new 7 "say x") :: EvGetCommands "say" :: tr.
Proof.
  split; [reflexivity|].
  destruct (substitution_applied_once 7 "s"%char "x" "say"
              (init Sample.alias_parser) eq_refl) as (tr & Ht & Htok).
  destruct (Htok empty_world "say" "x" eq_refl eq_refl) as (tr' & ->).
  exists tr'. exact Ht.
Defined.

(* ================================================================= *)
(** * Registration *)

(** The [for name in c.names] loop, over any list of names. *)
Lemma register_fold (c : Command.t) (ns : list string) :
  forall st,
  let st' := fold_left (register_name c) ns st in
  (forall name,
     get_commands (self st') name
     = get_commands (self st) name
       ++ repeat c (count_occ string_dec ns name)) /\
  (exists new,
     Dict.keys (commands (self st'))
     = Dict.keys (commands (self st)) ++ new) /\
  command_substitutions (self st') = command_substitutions (self st) /\
  command_separator (self st') = command_separator (self st) /\
  world st' = world st /\ trace st' = trace st /\
  next_oid st' = next_oid st.
Proof.
  induction ns as [|n ns IH]; intros st; cbv zeta.
  - simpl. split.
    + intros name. now rewrite List.app_nil_r.
    + split; [exists []; now rewrite List.app_nil_r | auto].
  - cbn [fold_left].
    destruct (IH (register_name c st n))
      as (Hget & (new & Hkeys) & Hsub & Hsep & Hw & Ht & Hn).
    cbv zeta in *.
    rewrite Hsub, Hsep, Hw, Ht, Hn.
    split.
    { intros name. rewrite Hget. unfold get_commands, register_name.
      cbn [self set_self commands]. unfold Dict.get_default at 1.
      rewrite DictFacts.get_set. cbn [count_occ].
      destruct (string_dec n name) as [->|Hne].
      - rewrite String.eqb_refl. cbn [repeat].
        rewrite <- List.app_assoc. reflexivity.
      - apply String.eqb_neq in Hne. rewrite Hne. reflexivity. }
    split.
    { rewrite Hkeys. unfold register_name. cbn [self set_self commands].
      rewrite DictFacts.keys_set.
      destruct (Dict.contains (commands (self st)) n).
      - exists new. reflexivity.
      - exists (n :: new). rewrite <- List.app_assoc. reflexivity. }
    unfold register_name. cbn. auto.
Qed.

(** What a successful call of [inner] has built. *)
Lemma inner_inv (kwargs : Dict.t PyVal) (func : Func) (st : State)
  (c : Command.t) (st' : State) :
  inner kwargs func st = Some (c, st') ->
  let k1 := Dict.remove kwargs "names" in
  let k2 := Dict.remove k1 "description" in
  let k3 := Dict.remove k2 "help" in
  let k4 := Dict.remove k3 "args_regexp" in
  let k5 := Dict.remove k4 "allowed" in
  Dict.get_default kwargs "names" (VNames (make_command_names func))
  = VNames (Command.names c) /\
  Dict.get_default k1 "description" (VStr (make_command_description func))
  = VStr (Command.description c) /\
  Dict.get_default k2 "help" (VStr (make_command_help func))
  = VStr (Command.help c) /\
  Dict.get_default k3 "args_regexp" (VRegexp (default_args_regexp (self st)))
  = VRegexp (Command.args_regexp c) /\
  (exists a, Dict.get_default k4 "allowed" (VPred a)
             = VPred (Command.allowed c)) /\
  Command.extra c = k5 /\
  Command.oid c = next_oid st /\
  Command.func c = func /\
  st' = register c (snd (alloc st)).
Proof.
  unfold inner, Dict.pop. cbv zeta.
  destruct (Dict.get_default kwargs "names" _) eqn:E1; try discriminate.
  destruct (Dict.get_default (Dict.remove kwargs "names") "description" _)
    eqn:E2; try discriminate.
  destruct (Dict.get_default
              (Dict.remove (Dict.remove kwargs "names") "description")
              "help" _) eqn:E3; try discriminate.
  destruct (Dict.get_default
              (Dict.remove
                 (Dict.remove (Dict.remove kwargs "names") "description")
                 "help") "args_regexp" _) eqn:E4; try discriminate.
  destruct (Dict.get_default
              (Dict.remove
                 (Dict.remove
                    (Dict.remove (Dict.remove kwargs "names") "description")
                    "help") "args_regexp") "allowed" _) eqn:E5;
    try discriminate.
  cbn [alloc]. intros H. injection H as <- <-. cbn.
  repeat split; try reflexivity.
  eexists. exact E5.
Qed.

(** With keyword arguments of the right types [inner] builds a command. *)
Lemma inner_total (kwargs : Dict.t PyVal) (func : Func) (st : State) :
  typed kwargs -> exists c st', inner kwargs func st = Some (c, st').
Proof.
  intros Ht. unfold inner, Dict.pop, Dict.get_default. cbv zeta.
  rewrite !DictFacts.get_remove. cbn [String.eqb Ascii.eqb Bool.eqb andb].
  destruct (Dict.get kwargs "names") as [v1|] eqn:E1;
    [pose proof (Ht _ _ E1) as T1; destruct v1; try discriminate T1|];
  (destruct (Dict.get kwargs "description") as [v2|] eqn:E2;
    [pose proof (Ht _ _ E2) as T2; destruct v2; try discriminate T2|]);
  (destruct (Dict.get kwargs "help") as [v3|] eqn:E3;
    [pose proof (Ht _ _ E3) as T3; destruct v3; try discriminate T3|]);
  (destruct (Dict.get kwargs "args_regexp") as [v4|] eqn:E4;
    [pose proof (Ht _ _ E4) as T4; destruct v4; try discriminate T4|]);
  (destruct (Dict.get kwargs "allowed") as [v5|] eqn:E5;
    [pose proof (Ht _ _ E5) as T5; destruct v5; try discriminate T5|]);
  cbn [alloc]; eexists; eexists; reflexivity.
Qed.

(** C8.  A registration through [command] builds one command, appends it
    to the list of every name in its [names] (once for each occurrence of
    the name there), after the commands that were there already; names that
    were not yet keys of the registry become keys, the keys there keep their
    places; the command is what the call returns.  Without a function,
    [command] returns the decorator and registers nothing.  With keyword
    arguments of the right types the registration succeeds.  And
    [handle_line] leaves the parser, hence registry and substitution table,
    as they are. *)
Theorem command_registers_under_every_name :
  (forall (kwargs : Dict.t PyVal) (func : Func) (st : State),
     typed kwargs ->
     exists c st',
       command (Some func) kwargs st = Registered (Some (c, st'))) /\
  (forall (kwargs : Dict.t PyVal) (func : Func) (st : State)
          (c : Command.t) (st' : State),
     command (Some func) kwargs st = Registered (Some (c, st')) ->
     (forall name,
        get_commands (self st') name
        = get_commands (self st) name
          ++ repeat c (count_occ string_dec (Command.names c) name)) /\
     (forall name, In name (Command.names c) ->
                   In c (get_commands (self st') name)) /\
     (exists new,
        Dict.keys (commands (self st'))
        = Dict.keys (commands (self st)) ++ new) /\
     command_substitutions (self st') = command_substitutions (self st) /\
     world st' = world st) /\
  (forall (kwargs : Dict.t PyVal) (st : State),
     command None kwargs st = Decorator (inner kwargs) st) /\
  (forall (conn : Connection) (line : string) (st : State),
     self (snd (handle_line conn line st)) = self st).
Proof.
  split; [|split; [|split]].
  - intros kwargs func st Ht.
    destruct (inner_total kwargs func st Ht) as (c & st' & H).
    exists c, st'. unfold command. now rewrite H.
  - intros kwargs func st c st' H. unfold command in H.
    injection H as H.
    destruct (inner_inv _ _ _ _ _ H) as (_ & _ & _ & _ & _ & _ & _ & _ & ->).
    unfold register.
    destruct (register_fold c (Command.names c) (snd (alloc st)))
      as (Hget & Hkeys & Hsub & _ & Hw & _ & _).
    cbv zeta in *. cbn [alloc snd self world] in *.
    split; [exact Hget|]. split; [|auto].
    intros name Hin. rewrite Hget. apply in_or_app. right.
    apply (count_occ_In string_dec) in Hin.
    destruct (count_occ string_dec (Command.names c) name); [lia|].
    left. reflexivity.
  - reflexivity.
  - intros conn line st. apply handle_line_summary.
Qed.

Lemma command_registers_under_every_name_witness :
  map Command.oid (get_commands (self Sample.look_alias) "look") = [0; 1; 2] /\
  map Command.oid (get_commands (self Sample.look_alias) "l") = [2] /\
  Dict.keys (commands (self Sample.look_alias)) = ["look"; "l"].
Proof.
  destruct (inner [("names", VNames ["l"; "look"])]
              (Sample.func "peek" (Sample.handler "third" Returned))
              Sample.look_twice) as [[c st']|] eqn:E; [|discriminate E].
  destruct (proj1 (proj2 command_registers_under_every_name)
              [("names", VNames ["l"; "look"])]
              (Sample.func "peek" (Sample.handler "third" Returned))
              Sample.look_twice c st'
              (f_equal Registered E)) as (Hget & _).
  assert (Hst : Sample.look_alias = st').
  { unfold Sample.look_alias, Sample.add. rewrite E. reflexivity. }
  rewrite Hst, !Hget.
  injection E as <- <-.
  repeat split; reflexivity.
Defined.

(* ================================================================= *)
(** * All commands *)

Lemma fold_left_concat {A B : Type} (f : A -> B -> A) (ls : list (list B)) :
  forall acc,
  fold_left (fun l objects => fold_left f objects l) ls acc
  = fold_left f (concat ls) acc.
Proof.
  induction ls as [|x ls IH]; intros acc; simpl.
  - reflexivity.
  - now rewrite fold_left_app, IH.
Qed.

Lemma all_commands_fold (st : State) :
  all_commands st = fold_left keep (registered (self st)) [].
Proof. unfold all_commands, registered. apply fold_left_concat. Qed.

Lemma mem_oid (cmd : Command.t) (l : list Command.t) :
  mem cmd l = true <-> In (Command.oid cmd) (map Command.oid l).
Proof.
  unfold mem. rewrite existsb_exists, in_map_iff.
  split; intros (x & H1 & H2).
  - exists x. split; [|exact H1].
    unfold Command.eqb in H2. now apply Nat.eqb_eq in H2.
  - exists x. split; [exact H2|].
    unfold Command.eqb. now apply Nat.eqb_eq.
Qed.

(** Where a list that ends with [x] can be cut. *)
Lemma snoc_cut {A : Type} (r r1 r2 : list A) (x b : A) :
  r ++ [x] = r1 ++ b :: r2 ->
  (r1 = r /\ b = x /\ r2 = []) \/
  (exists r2', r2 = r2' ++ [x] /\ r = r1 ++ b :: r2').
Proof.
  destruct (List.exists_last (l := b :: r2)) as (r2' & y & Hlast);
    [discriminate|].
  intros H. rewrite Hlast, List.app_assoc in H.
  apply List.app_inj_tail in H. destruct H as [Hr ->].
  destruct r2' as [|b' r2'].
  - injection Hlast as -> <-. left. rewrite List.app_nil_r in Hr. auto.
  - injection Hlast as <- ->. right. exists r2'. auto.
Qed.

(** The list kept after the commands [f] have been seen. *)
Lemma keep_invariant (f : list Command.t) :
  let r := fold_left keep f [] in
  NoDup (map Command.oid r) /\
  (forall c, In c r -> In c f) /\
  (forall c, In c f -> In (Command.oid c) (map Command.oid r)) /\
  (forall r1 b r2,
     r = r1 ++ b :: r2 ->
     exists f1 f2,
       f = f1 ++ b :: f2 /\
       forall o, In o (map Command.oid f1) <-> In o (map Command.oid r1)).
Proof.
  induction f as [|x f IH] using rev_ind; cbv zeta.
  - simpl. split; [constructor|]. split; [tauto|]. split; [tauto|].
    intros r1 b r2 H. destruct r1; discriminate H.
  - rewrite fold_left_app. cbn [fold_left].
    set (r := fold_left keep f []) in *. cbv zeta in IH.
    destruct IH as (Hnd & Hsub & Hcov & Hord).
    destruct (mem x r) eqn:Hm.
    + assert (Hk : keep r x = r) by (unfold keep; now rewrite Hm).
      rewrite Hk.
      split; [exact Hnd|]. split.
      { intros c Hc. apply in_or_app. left. auto. }
      split.
      { intros c Hc. apply in_app_or in Hc. destruct Hc as [Hc|[<-|[]]].
        - auto.
        - now apply mem_oid. }
      intros r1 b r2 Hr.
      destruct (Hord r1 b r2 Hr) as (f1 & f2 & -> & Hiff).
      exists f1, (f2 ++ [x]). split; [|exact Hiff].
      rewrite <- List.app_assoc. reflexivity.
    + assert (Hk : keep r x = r ++ [x]) by (unfold keep; now rewrite Hm).
      rewrite Hk.
      assert (Hx : ~ In (Command.oid x) (map Command.oid r)).
      { intros Hin. apply mem_oid in Hin. congruence. }
      split.
      { rewrite map_app. cbn [map].
        apply NoDup_app; [exact Hnd | repeat constructor; tauto |].
        intros o Ho [<-|[]]. exact (Hx Ho). }
      split.
      { intros c Hc. apply in_app_or in Hc. apply in_or_app.
        destruct Hc as [Hc|Hc]; [left; auto | right; exact Hc]. }
      split.
      { intros c Hc. rewrite map_app. apply in_or_app.
        apply in_app_or in Hc. destruct Hc as [Hc|[<-|[]]].
        - left. auto.
        - right. left. reflexivity. }
      intros r1 b r2 Hr.
      apply snoc_cut in Hr.
      destruct Hr as [(-> & -> & ->) | (r2' & -> & Hr)].
      * exists f, []. split; [reflexivity|].
        intros o. split; intros Ho.
        -- apply in_map_iff in Ho. destruct Ho as (c & <- & Hc). auto.
        -- apply in_map_iff in Ho. destruct Ho as (c & <- & Hc).
           apply in_map. auto.
      * destruct (Hord r1 b r2' Hr) as (f1 & f2 & -> & Hiff).
        exists f1, (f2 ++ [x]). split; [|exact Hiff].
        rewrite <- List.app_assoc. reflexivity.
Qed.

(** C9.  [all_commands] lists every command of the registry once: no
    identity occurs twice in the result, every command of the result is in
    the registry, every command of the registry has its identity in the
    result.  The order is that of first occurrence in the name lists taken
    in the order of the keys: a command [b] of the result is in the registry
    at a place before which it does not occur, and the commands before that
    place are those that come before [b] in the result. *)
Theorem all_commands_once_in_first_occurrence_order (st : State) :
  let r := all_commands st in
  let f := registered (self st) in
  NoDup (map Command.oid r) /\
  (forall c, In c r -> In c f) /\
  (forall c, In c f -> In (Command.oid c) (map Command.oid r)) /\
  (forall r1 b r2,
     r = r1 ++ b :: r2 ->
     exists f1 f2,
       f = f1 ++ b :: f2 /\
       ~ In (Command.oid b) (map Command.oid f1) /\
       forall o, In o (map Command.oid f1) <-> In o (map Command.oid r1)).
Proof.
  cbv zeta. rewrite all_commands_fold.
  destruct (keep_invariant (registered (self st)))
    as (Hnd & Hsub & Hcov & Hord).
  split; [exact Hnd|]. split; [exact Hsub|]. split; [exact Hcov|].
  intros r1 b r2 Hr.
  destruct (Hord r1 b r2 Hr) as (f1 & f2 & Hf & Hiff).
  exists f1, f2. split; [exact Hf|]. split; [|exact Hiff].
  intros Hin. apply Hiff in Hin.
  rewrite Hr, map_app in Hnd. cbn [map] in Hnd.
  apply NoDup_remove_2 in Hnd. apply Hnd.
  apply in_or_app. left. exact Hin.
Qed.

(** In [Sample.look_alias] the third command is under [look] and under [l];
    the name lists hold the identities 0, 1, 2 and then 2 again. *)
Lemma all_commands_once_in_first_occurrence_order_witness :
  map Command.oid (registered (self Sample.look_alias)) = [0; 1; 2; 2] /\
  map Command.oid (all_commands Sample.look_alias) = [0; 1; 2] /\
  NoDup (map Command.oid (all_commands Sample.look_alias)).
Proof.
  split; [reflexivity|]. split; [reflexivity|].
  apply (all_commands_once_in_first_occurrence_order Sample.look_alias).
Defined.

(* ================================================================= *)
(** * Default keyword arguments *)

(** The loop of [f] over any part [items] of the defaults [kwargs]. *)
Lemma fill_fold (kwargs : Dict.t PyVal) (items : list (string * PyVal)) :
  forall kw st,
  NoDup (map fst items) ->
  let r := fold_left (fill_step kwargs) items (kw, st) in
  (forall key,
     Dict.get (fst r) key
     = match Dict.get items key with
       | Some v => Some v
       | None => Dict.get kw key
       end) /\
  self (snd r) = self st /\ world (snd r) = world st /\
  next_oid (snd r) = next_oid st /\
  (exists tr, trace (snd r) = trace st ++ tr) /\
  (forall key,
     In key (map fst items) -> Dict.contains kw key = true ->
     exists e, In e (trace (snd r)) /\ twice_warning key e).
Proof.
  induction items as [|[k v] items IH]; intros kw st Hnd; cbv zeta.
  - simpl. repeat split; auto.
    + exists []. now rewrite List.app_nil_r.
    + intros key [].
  - cbn [fold_left fill_step]. cbn [map fst] in Hnd.
    apply NoDup_cons_iff in Hnd. destruct Hnd as [Hk Hnd].
    match goal with
    | |- context [fold_left _ items (?kw1, ?st1)] =>
        destruct (IH kw1 st1 Hnd) as (Hget & Hs & Hw & Hn & (tr & Ht) & Hwarn);
        set (st' := st1) in *
    end.
    cbv zeta in *.
    assert (Hst' : self st' = self st /\ world st' = world st /\
                   next_oid st' = next_oid st /\
                   exists tr0, trace st' = trace st ++ tr0).
    { subst st'. destruct (Dict.contains kw k); simpl.
      - repeat split; auto. eexists. reflexivity.
      - repeat split; auto. exists []. now rewrite List.app_nil_r. }
    destruct Hst' as (Hs' & Hw' & Hn' & tr0 & Ht0).
    split.
    { intros key. rewrite Hget, DictFacts.get_set. cbn [Dict.get].
      destruct (String.eqb k key) eqn:E.
      - apply String.eqb_eq in E. subst key.
        apply DictFacts.get_None in Hk. now rewrite Hk.
      - reflexivity. }
    split; [congruence|]. split; [congruence|]. split; [congruence|].
    split.
    { exists (tr0 ++ tr). rewrite Ht, Ht0, List.app_assoc. reflexivity. }
    intros key Hin Hc. cbn [map fst] in Hin.
    destruct (string_dec k key) as [->|Hne].
    + assert (He : exists e, In e (trace st') /\ twice_warning key e).
      { subst st'. rewrite Hc. unfold log, emit. cbn [trace].
        eexists. split.
        - apply in_or_app. right. left. reflexivity.
        - unfold twice_warning. eexists. eexists. reflexivity. }
      destruct He as (e & Hin' & Htw). exists e. split; [|exact Htw].
      rewrite Ht. apply in_or_app. left. exact Hin'.
    + destruct Hin as [Heq|Hin]; [congruence|].
      apply Hwarn; [exact Hin|].
      unfold Dict.contains in *. rewrite DictFacts.get_set.
      apply String.eqb_neq in Hne. now rewrite Hne.
Qed.

Lemma get_default_of_get {V : Type} (d : Dict.t V) (k : string) (v dflt : V) :
  Dict.get d k = Some v -> Dict.get_default d k dflt = v.
Proof. unfold Dict.get_default. now intros ->. Qed.

(** The command built from keyword arguments [kw] holds, for every key of
    [kw], the value [kw] has for it. *)
Lemma inner_field (kw : Dict.t PyVal) (f : Func) (st : State)
  (c : Command.t) (st' : State) (key : string) (v : PyVal) :
  inner kw f st = Some (c, st') ->
  Dict.get kw key = Some v ->
  field c key = Some v.
Proof.
  intros Hin Hget.
  destruct (inner_inv _ _ _ _ _ Hin)
    as (E1 & E2 & E3 & E4 & (a & E5) & E6 & _).
  cbv zeta in *. unfold field.
  destruct (String.eqb key "names") eqn:K1.
  { apply String.eqb_eq in K1. subst key.
    rewrite (get_default_of_get _ _ _ _ Hget) in E1. now subst v. }
  destruct (String.eqb key "description") eqn:K2.
  { apply String.eqb_eq in K2. subst key.
    rewrite (get_default_of_get _ _ v) in E2; [now subst v|].
    rewrite DictFacts.get_remove. exact Hget. }
  destruct (String.eqb key "help") eqn:K3.
  { apply String.eqb_eq in K3. subst key.
    rewrite (get_default_of_get _ _ v) in E3; [now subst v|].
    rewrite !DictFacts.get_remove. exact Hget. }
  destruct (String.eqb key "args_regexp") eqn:K4.
  { apply String.eqb_eq in K4. subst key.
    rewrite (get_default_of_get _ _ v) in E4; [now subst v|].
    rewrite !DictFacts.get_remove. exact Hget. }
  destruct (String.eqb key "allowed") eqn:K5.
  { apply String.eqb_eq in K5. subst key.
    rewrite (get_default_of_get _ _ v) in E5; [now subst v|].
    rewrite !DictFacts.get_remove. exact Hget. }
  rewrite E6, !DictFacts.get_remove.
  rewrite (String.eqb_sym "names"), (String.eqb_sym "description"),
    (String.eqb_sym "help"), (String.eqb_sym "args_regexp"),
    (String.eqb_sym "allowed"), K1, K2, K3, K4, K5.
  exact Hget.
Qed.

(** What the loop of [f] does with a key that is among the pre-filled
    defaults and among the keyword arguments of the call: it logs a warning
    for the key and then assigns the pre-filled value, so the registration
    goes on with the pre-filled value in the place of the one the caller
    gave, and the command registered holds the pre-filled value. *)
Theorem default_kwargs_default_wins (kwargs kw : Dict.t PyVal)
  (a : option Func) (st : State) (key : string) (v v' : PyVal) :
  NoDup (Dict.keys kwargs) ->
  Dict.get kwargs key = Some v ->
  Dict.get kw key = Some v' ->
  let kw1 := fst (fill_kwargs kwargs kw st) in
  let st1 := snd (fill_kwargs kwargs kw st) in
  default_kwargs_f kwargs a kw st = command a kw1 st1 /\
  Dict.get kw1 key = Some v /\
  (exists e, In e (trace st1) /\ twice_warning key e) /\
  self st1 = self st /\ world st1 = world st /\
  (forall f c st2,
     default_kwargs_f kwargs (Some f) kw st = Registered (Some (c, st2)) ->
     field c key = Some v) /\
  (typed kwargs -> typed kw ->
   forall f, exists c st2,
     default_kwargs_f kwargs (Some f) kw st = Registered (Some (c, st2))).
Proof.
  intros Hnd Hk Hkw. cbv zeta.
  destruct (fill_fold kwargs (Dict.items kwargs) kw st Hnd)
    as (Hget & Hs & Hw & _ & _ & Hwarn).
  cbv zeta in *. fold (fill_kwargs kwargs kw st) in *.
  assert (Hf : forall a', default_kwargs_f kwargs a' kw st
                          = command a' (fst (fill_kwargs kwargs kw st))
                              (snd (fill_kwargs kwargs kw st))).
  { intros a'. unfold default_kwargs_f.
    now destruct (fill_kwargs kwargs kw st). }
  assert (Hv : Dict.get (fst (fill_kwargs kwargs kw st)) key = Some v).
  { rewrite Hget. unfold Dict.items. now rewrite Hk. }
  split; [apply Hf|]. split; [exact Hv|]. split.
  { apply Hwarn.
    - apply DictFacts.get_In in Hk.
      apply (in_map fst) in Hk. exact Hk.
    - unfold Dict.contains. now rewrite Hkw. }
  split; [exact Hs|]. split; [exact Hw|]. split.
  - intros f c st2 H. rewrite Hf in H. unfold command in H.
    injection H as H. eapply inner_field; eauto.
  - intros T1 T2 f. rewrite Hf. unfold command.
    destruct (inner_total (fst (fill_kwargs kwargs kw st)) f
                (snd (fill_kwargs kwargs kw st))) as (c & st2 & H).
    + intros k0 v0 H0. rewrite Hget in H0. unfold Dict.items in H0.
      destruct (Dict.get kwargs k0) as [v1|] eqn:E.
      * injection H0 as <-. eapply T1; eauto.
      * eapply T2; eauto.
    + exists c, st2. now rewrite H.
Qed.

Lemma default_kwargs_default_wins_witness :
  let kwargs := [("description", VStr "from the defaults")] in
  let kw := [("description", VStr "from the caller")] in
  let f := Sample.func "look" (Sample.handler "looked" Returned) in
  match default_kwargs_f kwargs (Some f) kw (init new_parser) with
  | Registered (Some (c, st)) =>
      field c "description" = Some (VStr "from the defaults")
  | _ => False
  end.
Proof.
  cbv zeta.
  destruct (default_kwargs_default_wins
              [("description", VStr "from the defaults")]
              [("description", VStr "from the caller")]
              (Some (Sample.func "look" (Sample.handler "looked" Returned)))
              (init new_parser) "description"
              (VStr "from the defaults") (VStr "from the caller"))
    as (_ & _ & _ & _ & _ & H & _).
  - repeat constructor. simpl. tauto.
  - reflexivity.
  - reflexivity.
  - destruct (default_kwargs_f _ _ _ _) as [k st|[[c st]|]] eqn:E;
      try discriminate E.
    eapply H. exact E.
Defined.

(** C2.  The code at the failing input: the defaults hold a description
    and so does the call of [f].  The collision is reported, one warning is
    logged; but the command registered has the description of the
    defaults, not the one the caller gave, which was to win. *)
Lemma caller_value_is_overwritten :
  let kwargs := [("description", VStr "from the defaults")] in
  let kw := [("description", VStr "from the caller")] in
  let f := Sample.func "look" (Sample.handler "looked" Returned) in
  match default_kwargs_f kwargs (Some f) kw (init new_parser) with
  | Registered (Some (c, st)) =>
      Command.description c = "from the defaults" /\
      Command.description c <> "from the caller" /\
      trace st
      = [EvLog WARNING
           (AStr "Keyword argument %s specified twice: %r, %r.")
           [AStr "description"; AKwargs ["description"];
            AKwargs ["description"]]]
  | _ => False
  end.
Proof.
  cbv zeta. cbn. repeat split. discriminate.
Qed.

(* ================================================================= *)
(** * Further properties *)

Import Inv.

(** ** Tokenization *)

Lemma startswith_eq (p s : string) :
  PyStr.startswith p s = true ->
  s = (p ++ PyStr.drop (String.length p) s)%string.
Proof.
  revert s. induction p as [|a p IH]; intros s H; simpl in *.
  - reflexivity.
  - destruct s as [|b s]; [discriminate|].
    apply andb_prop in H. destruct H as [Hab Hp].
    apply Ascii.eqb_eq in Hab. subst b.
    simpl. f_equal. now apply IH.
Qed.

Lemma startswith_mono (p s t : string) :
  PyStr.startswith p s = true -> PyStr.startswith p (s ++ t) = true.
Proof.
  revert s. induction p as [|a p IH]; intros s H; simpl in *.
  - reflexivity.
  - destruct s as [|b s]; [discriminate|]. simpl.
    apply andb_prop in H. destruct H as [Hab Hp].
    rewrite Hab. simpl. now apply IH.
Qed.

(** What [cut] finds is a decomposition of the string. *)
Lemma cut_eq (sep : string) :
  forall s before after,
  PyStr.cut sep s = Some (before, after) ->
  s = (before ++ sep ++ after)%string.
Proof.
  induction s as [|c s IH]; intros before after H.
  - simpl in H. destruct (PyStr.startswith sep EmptyString) eqn:Hs;
      [|discriminate].
    injection H as <- <-. simpl. now apply startswith_eq.
  - destruct (PyStr.startswith sep (String c s)) eqn:Hs.
    + rewrite PyStrFacts.cut_here in H by exact Hs.
      injection H as <- <-. simpl. now apply startswith_eq.
    + rewrite PyStrFacts.cut_later in H by exact Hs.
      destruct (PyStr.cut sep s) as [[b a]|] eqn:Hc; [|discriminate].
      injection H as <- <-. simpl. f_equal. now apply IH.
Qed.

(** [cut] finds the separator wherever it occurs. *)
Lemma cut_occurs (sep : string) :
  forall before after,
  PyStr.cut sep (before ++ sep ++ after) <> None.
Proof.
  induction before as [|c before IH]; intros after.
  - simpl. rewrite PyStrFacts.cut_here by apply PyStrFacts.startswith_app.
    discriminate.
  - change (String c before ++ sep ++ after)%string
      with (String c (before ++ sep ++ after)).
    destruct (PyStr.startswith sep (String c (before ++ sep ++ after)))
      eqn:Hs.
    + rewrite PyStrFacts.cut_here by exact Hs. discriminate.
    + rewrite PyStrFacts.cut_later by exact Hs.
      specialize (IH after).
      destruct (PyStr.cut sep (before ++ sep ++ after)) as [[b a]|];
        [discriminate | contradiction].
Qed.

Lemma cut_None_iff (sep s : string) :
  PyStr.cut sep s = None <-> ~ occurs sep s.
Proof.
  split.
  - intros H (b & a & ->). exact (cut_occurs sep b a H).
  - intros H. destruct (PyStr.cut sep s) as [[b a]|] eqn:Hc; [|reflexivity].
    exfalso. apply H. exists b, a. now apply cut_eq.
Qed.

(** The text before the cut does not hold the separator. *)
Lemma cut_before (sep : string) :
  sep <> EmptyString ->
  forall s before after,
  PyStr.cut sep s = Some (before, after) ->
  PyStr.cut sep before = None.
Proof.
  intros Hne.
  assert (Hempty : PyStr.cut sep EmptyString = None).
  { destruct sep; [congruence | reflexivity]. }
  induction s as [|c s IH]; intros before after H.
  - simpl in H. destruct (PyStr.startswith sep EmptyString);
      [|discriminate].
    injection H as <- <-. exact Hempty.
  - destruct (PyStr.startswith sep (String c s)) eqn:Hs.
    + rewrite PyStrFacts.cut_here in H by exact Hs.
      injection H as <- <-. exact Hempty.
    + pose proof H as H0.
      rewrite PyStrFacts.cut_later in H by exact Hs.
      destruct (PyStr.cut sep s) as [[b a]|] eqn:Hc; [|discriminate].
      injection H as <- <-.
      assert (Hb : PyStr.startswith sep (String c b) = false).
      { destruct (PyStr.startswith sep (String c b)) eqn:Hb;
          [|reflexivity].
        apply (startswith_mono _ _ (sep ++ a)) in Hb.
        apply cut_eq in Hc. subst s. simpl in Hb. congruence. }
      rewrite PyStrFacts.cut_later by exact Hb.
      now rewrite (IH b a eq_refl).
Qed.

(** X1.  With a separator that is not empty [split] always gives a token
    and an argument text.  The token does not hold the separator.  Either
    the line is the token, the separator and the argument text, or the
    separator does not occur in the line, the token is the whole line and
    the argument text is empty. *)
Theorem split_round_trip (p : Parser) (line : string) :
  command_separator p <> EmptyString ->
  exists tok args,
    split p line = Some (tok, args) /\
    ~ occurs (command_separator p) tok /\
    (line = (tok ++ command_separator p ++ args)%string \/
     (~ occurs (command_separator p) line /\
      tok = line /\ args = EmptyString)).
Proof.
  intros Hne. unfold split, PyStr.split1.
  destruct (command_separator p) as [|a sep] eqn:Hsep; [congruence|].
  destruct (PyStr.cut (String a sep) line) as [[b af]|] eqn:Hc.
  - exists b, af. split; [reflexivity|]. split.
    + apply cut_None_iff. eapply cut_before; eauto.
    + left. now apply cut_eq.
  - exists line, EmptyString. split; [reflexivity|].
    apply cut_None_iff in Hc. auto.
Qed.

Lemma split_round_trip_witness :
  split new_parser "say hello there" = Some ("say", "hello there").
Proof.
  destruct (split_round_trip new_parser "say hello there")
    as (tok & args & H & _); [discriminate|].
  rewrite H. vm_compute in H. symmetry. exact H.
Defined.

(** X2.  With an empty separator every line that the pre-command hook lets
    through ends in the [ValueError] of [str.split]: it leaves
    [handle_line] right after the hook, before any candidate is looked
    up. *)
Theorem empty_separator_raises (conn : Connection) (line : string)
  (st : State) (w : World) :
  let caller := Caller.new conn (substitute (self st) line) in
  command_separator (self st) = EmptyString ->
  m_pre_command (self st) caller (world st) = (true, w) ->
  handle_line conn line st =
  (Thrown (StdError "ValueError"),
   {| self := self st; world := w;
      trace := trace st ++ [EvPreCommand caller];
      next_oid := next_oid st |}).
Proof.
  cbv zeta. intros Hsep Hpre.
  rewrite handle_line_unfold. cbv zeta. rewrite Hpre. cbn [fst snd].
  unfold split, PyStr.split1. rewrite Hsep. reflexivity.
Qed.

Lemma empty_separator_raises_witness :
  fst (handle_line 7 "look" (init glued_parser))
  = Thrown (StdError "ValueError").
Proof.
  rewrite (empty_separator_raises 7 "look" (init glued_parser) empty_world);
    reflexivity.
Defined.

(** ** The calls of a line *)

Lemma count_removelast_le f (tr : list Event) :
  count f (removelast tr) <= count f tr.
Proof.
  induction tr as [|x tr IH]; [simpl; lia|].
  destruct tr as [|y tr]; [unfold count; simpl; lia|].
  change (removelast (x :: y :: tr)) with ([x] ++ removelast (y :: tr)).
  change (x :: y :: tr) with ([x] ++ y :: tr).
  rewrite !count_app. lia.
Qed.

Lemma count_removelast_app f (tr1 tr2 : list Event) :
  count f tr1 = 0 -> count f (removelast tr2) = 0 ->
  count f (removelast (tr1 ++ tr2)) = 0.
Proof.
  intros H1 H2. destruct tr2 as [|y tr2].
  - rewrite List.app_nil_r.
    pose proof (count_removelast_le f tr1). lia.
  - rewrite removelast_app by discriminate.
    rewrite count_app. lia.
Qed.

Lemma calls_app (tr1 tr2 : list Event) :
  calls (tr1 ++ tr2) = calls tr1 ++ calls tr2.
Proof. unfold calls. apply flat_map_app. Qed.

Lemma same_line_refl (c : Caller.t) : same_line c c.
Proof. unfold same_line. auto. Qed.

Lemma same_line_trans (a b c : Caller.t) :
  same_line a b -> same_line b c -> same_line a c.
Proof. unfold same_line. intuition congruence. Qed.

Lemma bind_args_populated (cmd : Command.t) (args : string)
  (c k : Caller.t) :
  bind_args cmd args c = Some k -> populated c k.
Proof.
  unfold bind_args, populated, same_line.
  destruct (Command.args_regexp cmd) as [re|].
  - destruct (re args) as [m|]; [|discriminate].
    intros H. injection H as <-. simpl. repeat split; discriminate.
  - intros H. injection H as <-. simpl. repeat split; discriminate.
Qed.

(** The calls of one turn of the loop. *)
Lemma attempt_calls (cmd : Command.t) (args : string) (v : Locals) :
  let r := attempt cmd args v in
  exists tr,
    trace (l_state (snd r)) = trace (l_state v) ++ tr /\
    loop_calls 1 v (snd r)
      match fst r with
      | Continue => Exhausted
      | Break => Broke
      | Raise e => Propagated e
      end tr.
Proof.
  unfold attempt. cbv zeta.
  destruct (Command.ok_for cmd (l_caller v)).
  - destruct (bind_args cmd args (l_caller v)) as [k|] eqn:Hb.
    + pose proof (bind_args_populated _ _ _ _ Hb) as Hpop.
      assert (Hk : same_line k (l_caller v)) by apply Hpop.
      unfold invoke. cbv zeta.
      destruct (fn_call (Command.func cmd) k _) as [o w].
      destruct o as [|[|cls|cls]]; cbn [fst snd l_state l_commands l_caller];
        eexists; (split; [unfold log, emit, set_world; cbn [trace];
                          rewrite <- ?List.app_assoc; reflexivity|]);
        unfold loop_calls; cbn [l_commands l_caller];
        repeat split; try reflexivity; try (cbn; lia);
        try apply Hk; try apply Hpop;
        try (intros _; reflexivity);
        try (intros H; exfalso; apply H; reflexivity);
        try (cbn; repeat constructor; apply Hpop).
    + cbn [fst snd l_state l_commands l_caller].
      rewrite explain_trace.
      eexists. split.
      { unfold emit. cbn [trace]. rewrite <- List.app_assoc. reflexivity. }
      unfold loop_calls. cbn [l_commands l_caller].
      repeat split; try reflexivity; try (cbn; lia).
      cbn. constructor.
  - cbn [fst snd l_state l_commands l_caller].
    eexists. split; [reflexivity|].
    unfold loop_calls. cbn [l_commands l_caller].
    repeat split; try reflexivity; try (cbn; lia).
    cbn. constructor.
Qed.

(** The calls of the whole loop. *)
Lemma for_loop_calls (cmds : list Command.t) (args : string) :
  forall v,
  let r := for_loop cmds args v in
  exists tr,
    trace (l_state (snd r)) = trace (l_state v) ++ tr /\
    loop_calls (List.length cmds) v (snd r) (fst r) tr.
Proof.
  induction cmds as [|cmd rest IH]; intros v; cbv zeta.
  - exists []. split; [simpl; now rewrite List.app_nil_r|].
    unfold loop_calls, count. simpl.
    repeat split; try reflexivity; try lia. constructor.
  - cbn [for_loop List.length].
    destruct (attempt_calls cmd args v) as (tr1 & Ht1 & Hc1).
    cbv zeta in *.
    destruct (attempt cmd args v) as [[| |e] v1]; cbn [fst snd] in *.
    + destruct (IH v1) as (tr2 & Ht2 & Hc2). cbv zeta in *.
      exists (tr1 ++ tr2). split.
      { rewrite Ht2, Ht1, List.app_assoc. reflexivity. }
      unfold loop_calls in *.
      destruct Hc1 as (A1 & A2 & A3 & A4 & A5 & A6 & A7).
      destruct Hc2 as (B1 & B2 & B3 & B4 & B5 & B6 & B7).
      assert (A5' : count is_return tr1 = 0) by (apply A5; discriminate).
      rewrite forallb_app, !count_app, calls_app, A1, B1.
      split; [reflexivity|]. split; [lia|]. split; [lia|].
      split; [now apply count_removelast_app|].
      split; [intros Hex; rewrite (B5 Hex); lia|].
      split; [eapply same_line_trans; eauto|].
      apply Forall_app. split; [exact A7|].
      eapply Forall_impl; [|exact B7].
      intros c (P1 & P2 & P3). split; [|auto].
      eapply same_line_trans; eauto.
    + exists tr1. split; [exact Ht1|].
      unfold loop_calls in *.
      destruct Hc1 as (A1 & A2 & A3 & A4 & A5 & A6 & A7).
      repeat split; auto; try lia; try apply A6.
    + exists tr1. split; [exact Ht1|].
      unfold loop_calls in *.
      destruct Hc1 as (A1 & A2 & A3 & A4 & A5 & A6 & A7).
      repeat split; auto; try lia; try apply A6.
Qed.

Lemma result_Some (n m : nat) : result n = Some m -> m = n /\ 0 < n.
Proof. destruct n; simpl; intros H; [discriminate|]. injection H as <-. lia. Qed.

Lemma result_None (n : nat) : result n = None -> n = 0.
Proof. destruct n; simpl; intros H; [reflexivity | discriminate]. Qed.

Lemma loop_event_counts (tr : list Event) :
  forallb loop_event tr = true ->
  count is_pre_command tr = 0 /\ count is_get_commands tr = 0 /\
  count is_huh tr = 0.
Proof.
  unfold count. induction tr as [|e tr IH]; simpl; intros H; [auto|].
  apply andb_prop in H. destruct H as [He Htr].
  destruct (IH Htr) as (H1 & H2 & H3).
  destruct e; simpl in *; try discriminate; auto.
Qed.

(** The calls of [handle_line], in order: the pre-command hook; then, for
    a line that gets past the hook and [split], the lookup of the
    candidates, the events of the loop and, when the loop ran out with no
    command matched, the catch-all hook. *)
Lemma handle_line_shape (conn : Connection) (line : string) (st : State) :
  let p := self st in
  let text := substitute p line in
  let c0 := Caller.new conn text in
  let r := handle_line conn line st in
  exists tr,
    trace (snd r) = trace st ++ EvPreCommand c0 :: tr /\
    ((tr = [] /\
      (fst r = Normal None \/ fst r = Thrown (StdError "ValueError"))) \/
     (exists w tok args ltr tl,
        m_pre_command p c0 (world st) = (true, w) /\
        split p text = Some (tok, args) /\
        tr = EvGetCommands tok :: ltr ++ tl /\
        let lr :=
          for_loop (get_commands p tok) args (entry conn text tok args w st)
        in
        loop_calls (List.length (get_commands p tok))
          (entry conn text tok args w st) (snd lr) (fst lr) ltr /\
        fst r =
        match fst lr with
        | Propagated e => Thrown e
        | _ => Normal (result (l_commands (snd lr)))
        end /\
        tl =
        match fst lr, l_commands (snd lr) with
        | Exhausted, O => [EvHuh (l_caller (snd lr))]
        | _, _ => []
        end)).
Proof.
  cbv zeta. rewrite handle_line_unfold. cbv zeta.
  set (text := substitute (self st) line).
  set (c0 := Caller.new conn text).
  destruct (m_pre_command (self st) c0 (world st)) as [go w] eqn:Hpre.
  cbn [fst snd]. destruct go.
  2:{ exists []. split; [reflexivity|]. left. auto. }
  destruct (split (self st) text) as [[tok args]|] eqn:Hsplit.
  2:{ exists []. split; [reflexivity|]. left. auto. }
  change (MkLocals (Caller.set_args_str args (Caller.set_command tok c0)) 0
            (emit (EvGetCommands tok)
               (set_world w (emit (EvPreCommand c0) st))))
    with (entry conn text tok args w st).
  destruct (for_loop_calls (get_commands (self st) tok) args
              (entry conn text tok args w st)) as (ltr & Ht & Hc).
  cbv zeta in *.
  destruct (for_loop (get_commands (self st) tok) args
              (entry conn text tok args w st)) as [ex v] eqn:Hloop.
  cbn [fst snd] in *.
  assert (Hent : trace (l_state (entry conn text tok args w st))
                 = trace st ++ [EvPreCommand c0; EvGetCommands tok]).
  { unfold entry, emit, set_world. cbn [l_state trace].
    rewrite <- List.app_assoc. reflexivity. }
  rewrite Hent in Ht.
  exists (EvGetCommands tok :: ltr
            ++ match ex, l_commands v with
               | Exhausted, O => [EvHuh (l_caller v)]
               | _, _ => []
               end).
  split.
  - destruct ex as [| |e]; cbn [snd].
    + destruct (l_commands v); cbn [trace emit set_world].
      * rewrite Ht, <- !List.app_assoc. reflexivity.
      * rewrite Ht, List.app_nil_r, <- !List.app_assoc. reflexivity.
    + rewrite Ht, List.app_nil_r, <- !List.app_assoc. reflexivity.
    + rewrite Ht, List.app_nil_r, <- !List.app_assoc. reflexivity.
  - right. exists w, tok, args, ltr,
      match ex, l_commands v with
      | Exhausted, O => [EvHuh (l_caller v)]
      | _, _ => []
      end.
    split; [reflexivity|]. split; [reflexivity|]. split; [reflexivity|].
    rewrite Hloop. cbn [fst snd].
    split; [exact Hc|].
    split; [|reflexivity].
    destruct ex; reflexivity.
Qed.

(** X3.  The count [handle_line] returns is the number of handlers it
    called, and it is never zero.  When [handle_line] returns, it returns
    no count exactly when it called no handler.  The number of calls is at
    most the number of candidates under the token. *)
Theorem count_is_number_of_calls (conn : Connection) (line : string)
  (st : State) :
  let p := self st in
  let text := substitute p line in
  let r := handle_line conn line st in
  exists tr,
    trace (snd r) = trace st ++ tr /\
    (forall n, fst r = Normal (Some n) -> count is_call tr = n /\ 0 < n) /\
    (forall v, fst r = Normal v -> (v = None <-> count is_call tr = 0)) /\
    (forall w tok args,
       m_pre_command p (Caller.new conn text) (world st) = (true, w) ->
       split p text = Some (tok, args) ->
       count is_call tr <= List.length (get_commands p tok)).
Proof.
  cbv zeta.
  destruct (handle_line_shape conn line st) as (tr & Ht & Hshape).
  cbv zeta in *.
  exists (EvPreCommand (Caller.new conn (substitute (self st) line)) :: tr).
  split; [exact Ht|].
  assert (Hmain :
    (forall n, fst (handle_line conn line st) = Normal (Some n) ->
       count is_call
         (EvPreCommand (Caller.new conn (substitute (self st) line)) :: tr)
       = n /\ 0 < n) /\
    (fst (handle_line conn line st) = Normal None ->
       count is_call
         (EvPreCommand (Caller.new conn (substitute (self st) line)) :: tr)
       = 0) /\
    (forall w tok args,
       m_pre_command (self st)
         (Caller.new conn (substitute (self st) line)) (world st) = (true, w) ->
       split (self st) (substitute (self st) line) = Some (tok, args) ->
       count is_call
         (EvPreCommand (Caller.new conn (substitute (self st) line)) :: tr)
       <= List.length (get_commands (self st) tok))).
  { destruct Hshape as [(-> & Hr) |
      (w & tok & args & ltr & tl & Hpre & Hsplit & -> & Hc & Hr & Htl)].
    - split; [|split].
      + intros n Hn. destruct Hr as [Hr|Hr]; rewrite Hr in Hn; discriminate.
      + reflexivity.
      + intros. unfold count. simpl. lia.
    - destruct Hc as (C1 & C2 & C3 & _).
      change (l_commands
                (entry conn (substitute (self st) line) tok args w st))
        with 0 in C2.
      assert (Hcount : count is_call
                (EvPreCommand (Caller.new conn (substitute (self st) line))
                   :: EvGetCommands tok :: ltr ++ tl) = count is_call ltr).
      { change (count is_call
                  ([EvPreCommand
                      (Caller.new conn (substitute (self st) line));
                    EvGetCommands tok] ++ ltr ++ tl) = count is_call ltr).
        rewrite !count_app. subst tl.
        destruct (fst (for_loop _ _ _)), (l_commands _);
          unfold count; simpl; lia. }
      rewrite Hcount. split; [|split].
      + intros n Hn. rewrite Hr in Hn.
        destruct (fst (for_loop _ _ _)); try discriminate;
          injection Hn as Hn; apply result_Some in Hn; lia.
      + intros Hn. rewrite Hr in Hn.
        destruct (fst (for_loop _ _ _)); try discriminate;
          injection Hn as Hn; apply result_None in Hn; lia.
      + intros w' tok' args' Hpre' Hsplit'.
        rewrite Hsplit in Hsplit'. injection Hsplit' as <- <-. exact C3. }
  destruct Hmain as (Hsome & Hnone & Hbound).
  split; [exact Hsome|]. split; [|exact Hbound].
  intros v Hv. split.
  - intros ->. exact (Hnone Hv).
  - intros Hz. destruct v as [n|]; [|reflexivity].
    destruct (Hsome n Hv) as [Hn Hpos]. lia.
Qed.

Lemma count_is_number_of_calls_witness :
  count is_call (trace (snd (handle_line 7 "look" Sample.look_twice))) = 2.
Proof.
  destruct (count_is_number_of_calls 7 "look" Sample.look_twice)
    as (tr & Ht & Hn & _).
  cbv zeta in *.
  change (trace Sample.look_twice) with (@nil Event) in Ht.
  cbn [app] in Ht. rewrite Ht. apply (Hn 2). reflexivity.
Defined.

Lemma count_le_removelast (f : Event -> bool) (tr : list Event) :
  count f tr <= count f (removelast tr) + 1.
Proof.
  destruct tr as [|x tr]; [unfold count; simpl; lia|].
  destruct (List.exists_last (l := x :: tr)) as (l' & y & ->);
    [discriminate|].
  rewrite removelast_last, count_app.
  assert (count f [y] <= 1) by (unfold count; simpl; destruct (f y); simpl; lia).
  lia.
Qed.

Lemma loop_event_no_huh (tr : list Event) :
  forallb loop_event tr = true -> fired is_huh tr = false.
Proof.
  unfold fired. induction tr as [|e tr IH]; simpl; intros H; [reflexivity|].
  apply andb_prop in H. destruct H as [He Htr].
  rewrite (IH Htr). destruct e; simpl in *; try discriminate; reflexivity.
Qed.

(** X4.  At most one handler returns normally in a call of [handle_line],
    and its return is the last thing that happens: no later candidate is
    tried, no hook is called after it.  When the catch-all hook is called,
    or an exception leaves [handle_line], no handler has returned. *)
Theorem completion_ends_resolution (conn : Connection) (line : string)
  (st : State) :
  let r := handle_line conn line st in
  exists tr,
    trace (snd r) = trace st ++ tr /\
    count is_return tr <= 1 /\
    count is_return (removelast tr) = 0 /\
    (fired is_huh tr = true -> count is_return tr = 0) /\
    (forall e, fst r = Thrown e -> count is_return tr = 0).
Proof.
  cbv zeta.
  destruct (handle_line_shape conn line st) as (tr & Ht & Hshape).
  cbv zeta in *.
  set (c0 := Caller.new conn (substitute (self st) line)) in *.
  exists (EvPreCommand c0 :: tr).
  split; [exact Ht|].
  destruct Hshape as [(-> & Hr) |
    (w & tok & args & ltr & tl & Hpre & Hsplit & -> & Hc & Hr & Htl)].
  - unfold count. simpl. repeat split; auto; discriminate.
  - destruct Hc as (C1 & _ & _ & C4 & C5 & _).
    assert (Hlast : count is_return (removelast (ltr ++ tl)) = 0 /\
                    (tl <> [] -> count is_return ltr = 0) /\
                    count is_return tl = 0 /\
                    (forall e, fst (handle_line conn line st) = Thrown e ->
                               count is_return ltr = 0)).
    { rewrite Hr. subst tl.
      destruct (fst (for_loop _ _ _)) eqn:Hex.
      - assert (H0 : count is_return ltr = 0) by (apply C5; discriminate).
        destruct (l_commands _).
        + rewrite removelast_last. repeat split; auto.
        + rewrite List.app_nil_r. repeat split; auto.
      - rewrite List.app_nil_r.
        split; [exact C4|]. split; [congruence|]. split; [reflexivity|].
        intros e He. discriminate He.
      - assert (H0 : count is_return ltr = 0) by (apply C5; discriminate).
        rewrite List.app_nil_r. repeat split; auto. }
    destruct Hlast as (L1 & L2 & L3 & L4).
    assert (Hrem : count is_return
                     (removelast (EvPreCommand c0 :: EvGetCommands tok
                                    :: ltr ++ tl)) = 0).
    { change (EvPreCommand c0 :: EvGetCommands tok :: ltr ++ tl)
        with ([EvPreCommand c0; EvGetCommands tok] ++ ltr ++ tl).
      apply count_removelast_app; [reflexivity | exact L1]. }
    assert (Hall : count is_return
                     (EvPreCommand c0 :: EvGetCommands tok :: ltr ++ tl)
                   = count is_return ltr).
    { change (EvPreCommand c0 :: EvGetCommands tok :: ltr ++ tl)
        with ([EvPreCommand c0; EvGetCommands tok] ++ ltr ++ tl).
      rewrite !count_app, L3. unfold count at 1. simpl. lia. }
    split.
    { pose proof (count_le_removelast is_return
                    (EvPreCommand c0 :: EvGetCommands tok :: ltr ++ tl)).
      lia. }
    split; [exact Hrem|]. split.
    + intros Hh. rewrite Hall. apply L2. intros ->.
      rewrite List.app_nil_r in Hh.
      change (EvPreCommand c0 :: EvGetCommands tok :: ltr)
        with ([EvPreCommand c0; EvGetCommands tok] ++ ltr) in Hh.
      rewrite fired_app, (loop_event_no_huh _ C1) in Hh. discriminate Hh.
    + intros e He. rewrite Hall. eapply L4; eauto.
Qed.

Lemma completion_ends_resolution_witness :
  count is_return
    (trace (snd (handle_line 7 "look"
                   (Sample.faulty (StdError "KeyError"))))) = 1 /\
  last (trace (snd (handle_line 7 "look"
                      (Sample.faulty (StdError "KeyError")))))
    (EvGetCommands "") =
  EvCall 1
    (Caller.set_kwargs []
       (Caller.set_args []
          (Caller.set_exception (StdError "KeyError")
             (Caller.set_kwargs []
                (Caller.set_args []
                   (Caller.set_args_str ""
                      (Caller.set_command "look"
                         (Caller.new 7 "look"))))))))
    Returned.
Proof.
  destruct (completion_ends_resolution 7 "look"
              (Sample.faulty (StdError "KeyError")))
    as (tr & Ht & Hle & _).
  split; reflexivity.
Defined.

(** X6.  The pre-command hook is called once for a line, before anything
    else.  The candidates are looked up at most once, right after it.  The
    catch-all hook is called at most once, and then it is the last call. *)
Theorem hooks_in_order (conn : Connection) (line : string) (st : State) :
  let c0 := Caller.new conn (substitute (self st) line) in
  let r := handle_line conn line st in
  exists tr,
    trace (snd r) = trace st ++ EvPreCommand c0 :: tr /\
    count is_pre_command tr = 0 /\
    count is_get_commands tr <= 1 /\
    (fired is_get_commands tr = true ->
     exists tok tr', tr = EvGetCommands tok :: tr') /\
    count is_huh tr <= 1 /\
    (fired is_huh tr = true ->
     exists tr0 c, tr = tr0 ++ [EvHuh c] /\ count is_huh tr0 = 0).
Proof.
  cbv zeta.
  destruct (handle_line_shape conn line st) as (tr & Ht & Hshape).
  cbv zeta in *.
  set (c0 := Caller.new conn (substitute (self st) line)) in *.
  exists tr. split; [exact Ht|].
  destruct Hshape as [(-> & Hr) |
    (w & tok & args & ltr & tl & Hpre & Hsplit & -> & Hc & Hr & Htl)].
  - unfold count. simpl. repeat split; auto; try lia; discriminate.
  - destruct Hc as (C1 & _).
    destruct (loop_event_counts _ C1) as (E1 & E2 & E3).
    pose proof (loop_event_no_huh _ C1) as E4.
    assert (Htl0 : count is_pre_command tl = 0 /\
                   count is_get_commands tl = 0 /\
                   (tl = [] \/ exists c, tl = [EvHuh c])).
    { subst tl. destruct (fst (for_loop _ _ _));
        try destruct (l_commands _);
        repeat split; auto; right; eexists; reflexivity. }
    destruct Htl0 as (T1 & T2 & T3).
    change (EvGetCommands tok :: ltr ++ tl)
      with ([EvGetCommands tok] ++ ltr ++ tl).
    rewrite !count_app, E1, E2, E3, T1, T2.
    split; [reflexivity|]. split; [unfold count; simpl; lia|].
    split; [intros _; exists tok, (ltr ++ tl); reflexivity|].
    split.
    + destruct T3 as [-> | (c & ->)]; unfold count; simpl; lia.
    + intros Hh. destruct T3 as [-> | (c & ->)].
      * rewrite List.app_nil_r, fired_app, E4 in Hh. discriminate Hh.
      * exists (EvGetCommands tok :: ltr), c.
        split; [cbn [app]; reflexivity|].
        change (EvGetCommands tok :: ltr) with ([EvGetCommands tok] ++ ltr).
        rewrite count_app, E3. reflexivity.
Qed.

(** ** Lines without a match, lines with one *)

(** A loop over candidates that all refuse the caller only asks them. *)
Lemma for_loop_all_refused (cmds : list Command.t) (args : string)
  (caller : Caller.t) (n : nat) :
  Forall (fun c => Command.ok_for c caller = false) cmds ->
  forall p w tr o,
  for_loop cmds args (MkLocals caller n (MkState p w tr o)) =
  (Exhausted,
   MkLocals caller n
     (MkState p w
        (tr ++ map (fun c => EvOkFor (Command.oid c) caller) cmds) o)).
Proof.
  induction 1 as [|cmd cmds Hno _ IH]; intros p w tr o.
  - simpl. now rewrite List.app_nil_r.
  - cbn [for_loop]. unfold attempt. cbv zeta.
    cbn [l_caller l_commands l_state]. rewrite Hno.
    unfold emit. cbn [self world trace next_oid].
    rewrite IH. cbn [map]. rewrite <- List.app_assoc. reflexivity.
Qed.

(** X7.  When every candidate under the token refuses the caller, and so
    when there is no candidate at all, [handle_line] asks each candidate
    once, in order, calls no handler, calls the catch-all hook with the
    caller of the line and returns no count. *)
Theorem unresolved_goes_to_huh (conn : Connection) (line : string)
  (st : State) (w : World) (tok args : string) :
  let p := self st in
  let text := substitute p line in
  let c0 := Caller.new conn text in
  let caller := Caller.set_args_str args (Caller.set_command tok c0) in
  m_pre_command p c0 (world st) = (true, w) ->
  split p text = Some (tok, args) ->
  Forall (fun c => Command.ok_for c caller = false) (get_commands p tok) ->
  handle_line conn line st =
  (Normal None,
   {| self := p;
      world := m_huh p caller w;
      trace :=
        trace st
        ++ [EvPreCommand c0; EvGetCommands tok]
        ++ map (fun c => EvOkFor (Command.oid c) caller) (get_commands p tok)
        ++ [EvHuh caller];
      next_oid := next_oid st |}).
Proof.
  cbv zeta. intros Hpre Hsplit Hall.
  rewrite (handle_line_enter _ _ _ _ _ _ Hpre Hsplit).
  unfold entry, emit, set_world. cbn [self world trace next_oid].
  rewrite (for_loop_all_refused _ _ _ _ Hall).
  cbn [l_commands l_state l_caller self world trace next_oid result].
  f_equal. f_equal. rewrite <- !List.app_assoc. reflexivity.
Qed.

(** In [locked] two commands are under [open] and neither lets the caller
    in: each is asked once, in the order of registration, no handler runs,
    and the catch-all hook answers. *)
Lemma unresolved_goes_to_huh_witness :
  let caller :=
    Caller.set_args_str "door"
      (Caller.set_command "open" (Caller.new 7 "open door")) in
  List.length (get_commands (self locked) "open") = 2 /\
  fst (handle_line 7 "open door" locked) = Normal None /\
  trace (snd (handle_line 7 "open door" locked)) =
  [EvPreCommand (Caller.new 7 "open door");
   EvGetCommands "open";
   EvOkFor 0 caller;
   EvOkFor 1 caller;
   EvHuh caller] /\
  world (snd (handle_line 7 "open door" locked)) =
  {| outbox := [(7, MkMessage "I don't understand that." [])];
     game := [] |}.
Proof.
  cbv zeta.
  rewrite (unresolved_goes_to_huh 7 "open door" locked empty_world
             "open" "door"); try reflexivity.
  - repeat split; reflexivity.
  - repeat constructor.
Defined.

(** X8.  The candidates under the token are [pre ++ cmd :: post]; the
    iteration gets through [pre] and reaches [cmd], which is allowed,
    accepts the arguments, and whose handler returns.  Then [handle_line]
    stops there: it returns the count so far plus one, the world is the one
    the handler left, and nothing of it depends on [post]. *)
Theorem first_completion_wins (conn : Connection) (line : string)
  (st : State) (w0 w' : World) (name args : string)
  (pre post : list Command.t) (cmd : Command.t) (k : Caller.t) (v : Locals) :
  let text := substitute (self st) line in
  m_pre_command (self st) (Caller.new conn text) (world st) = (true, w0) ->
  split (self st) text = Some (name, args) ->
  get_commands (self st) name = pre ++ cmd :: post ->
  for_loop pre args (entry conn text name args w0 st) = (Exhausted, v) ->
  Command.ok_for cmd (l_caller v) = true ->
  bind_args cmd args (l_caller v) = Some k ->
  fn_call (Command.func cmd) k (world (l_state v)) = (Returned, w') ->
  handle_line conn line st =
  (Normal (Some (S (l_commands v))),
   {| self := self (l_state v);
      world := w';
      trace :=
        trace (l_state v)
        ++ [EvOkFor (Command.oid cmd) (l_caller v);
            EvCall (Command.oid cmd) k Returned];
      next_oid := next_oid (l_state v) |}).
Proof.
  cbv zeta. intros Hpre Hsplit Hget Hloop Hok Hb Hf.
  rewrite (handle_line_enter _ _ _ _ _ _ Hpre Hsplit), Hget.
  rewrite (for_loop_app _ _ _ _ _ Hloop).
  unfold for_loop, attempt, invoke. cbv zeta.
  rewrite Hok, Hb. cbn [world emit]. rewrite Hf.
  cbn [l_commands l_state]. rewrite Nat.add_1_r. cbn [result].
  f_equal. state_eq.
Qed.

(** In [Sample.look_alias] three commands are under [look]: the first
    passes the line on, the second returns, the third would return too.
    The second ends the line: the count is the one so far plus one, and the
    third is not asked and does not run. *)
Lemma first_completion_wins_witness :
  let caller :=
    Caller.set_args_str "" (Caller.set_command "look" (Caller.new 7 "look")) in
  let k := Caller.set_kwargs [] (Caller.set_args [] caller) in
  let k' := Caller.set_kwargs [] (Caller.set_args [] k) in
  List.length (get_commands (self Sample.look_alias) "look") = 3 /\
  fst (handle_line 7 "look" Sample.look_alias) = Normal (Some 2) /\
  game (world (snd (handle_line 7 "look" Sample.look_alias)))
  = ["first"; "second"] /\
  trace (snd (handle_line 7 "look" Sample.look_alias)) =
  [EvPreCommand (Caller.new 7 "look");
   EvGetCommands "look";
   EvOkFor 0 caller;
   EvCall 0 k (Raised DontStopException);
   EvOkFor 1 k;
   EvCall 1 k' Returned].
Proof.
  cbv zeta.
  set (dflt := Command.Make 9 (Sample.func "" (Sample.handler "" Returned))
                 [] "" "" None (fun _ => true) []).
  set (c1 := nth 0 (get_commands (self Sample.look_alias) "look") dflt).
  set (c2 := nth 1 (get_commands (self Sample.look_alias) "look") dflt).
  set (c3 := nth 2 (get_commands (self Sample.look_alias) "look") dflt).
  set (v := snd (for_loop [c1] ""
                   (entry 7 "look" "look" "" empty_world
                      Sample.look_alias))).
  rewrite (first_completion_wins 7 "look" Sample.look_alias
             empty_world {| outbox := []; game := ["first"; "second"] |}
             "look" "" [c1] [c3] c2
             (Caller.set_kwargs [] (Caller.set_args [] (l_caller v))) v);
    try reflexivity.
  repeat split; reflexivity.
Defined.

(** ** Explanations *)

Lemma name_in_In (value : string) (l : list string) :
  name_in value l = true <-> In value l.
Proof.
  unfold name_in. rewrite existsb_exists. split.
  - intros (x & Hx & He). apply String.eqb_eq in He. now subst.
  - intros H. exists value. split; [exact H | apply String.eqb_refl].
Qed.

(** X9.  [explain] sends to the connection, in this order: the names of the
    command joined by [ or ]; for each entry of the substitution table, in
    the order of the table, whose long form is one of the names, a hint
    with the long form, the separator and the key; the description; the
    help.  It sends nothing else and changes nothing else. *)
Theorem explain_sends_explanation (cmd : Command.t) (conn : Connection)
  (st : State) :
  let p := self st in
  let hints :=
    filter (fun kv => name_in (snd kv) (Command.names cmd))
      (Dict.items (command_substitutions p)) in
  outbox (world (explain cmd conn st)) =
  outbox (world st)
  ++ [(conn, MkMessage "%s:" [PyStr.join " or " (Command.names cmd)])]
  ++ map
       (fun kv =>
          (conn,
           MkMessage
             ("Instead of typing " ++ PyStr.dquote ++ "%s%s" ++ PyStr.dquote
                ++ ", you can type %s.")
             [snd kv; command_separator p; fst kv]))
       hints
  ++ [(conn, MkMessage (Command.description cmd) []);
      (conn, MkMessage (Command.help cmd) [])] /\
  List.length (outbox (world (explain cmd conn st)))
  = List.length (outbox (world st)) + 3 + List.length hints /\
  (forall kv, In kv hints <->
     In kv (Dict.items (command_substitutions p)) /\
     In (snd kv) (Command.names cmd)) /\
  game (world (explain cmd conn st)) = game (world st) /\
  self (explain cmd conn st) = self st /\
  trace (explain cmd conn st) = trace st /\
  next_oid (explain cmd conn st) = next_oid st.
Proof.
  cbv zeta. rewrite explain_world. cbn [outbox game].
  unfold explanation.
  split; [reflexivity|]. split.
  { rewrite !List.length_app. cbn [List.length].
    rewrite List.length_app, List.length_map. cbn [List.length]. lia. }
  split.
  { intros kv. rewrite filter_In, name_in_In. reflexivity. }
  split; [reflexivity|]. apply explain_frame.
Qed.

(** The command [say] of [Sample.say_state] has the double quote as its
    short form: four messages. *)
Lemma explain_sends_explanation_witness :
  map (fun m => fmt (snd m))
    (outbox (world (explain
                      (nth 0 (get_commands (self Sample.say_state) "say")
                         (Command.Make 9
                            (Sample.func "" (Sample.handler "" Returned))
                            [] "" "" None (fun _ => true) []))
                      7 Sample.say_state)))
  = ["%s:";
     ("Instead of typing " ++ PyStr.dquote ++ "%s%s" ++ PyStr.dquote
        ++ ", you can type %s.")%string;
     "No description available.";
     "No help available."].
Proof.
  rewrite (proj1 (explain_sends_explanation _ 7 Sample.say_state)).
  reflexivity.
Defined.

(** ** The registry under registration *)

Lemma registered_set (c : Command.t) (k : string)
  (d : Dict.t (list Command.t)) (x : Command.t) :
  In x (concat (Dict.values (Dict.set d k (Dict.get_default d k [] ++ [c]))))
  <-> In x (concat (Dict.values d)) \/ x = c.
Proof.
  unfold Dict.values, Dict.get_default.
  induction d as [|[k0 v0] d IH]; simpl.
  - intuition.
  - destruct (String.eqb k0 k) eqn:E; simpl.
    + rewrite !in_app_iff. simpl. intuition.
    + rewrite !in_app_iff, IH. tauto.
Qed.

Lemma registered_fold (c : Command.t) (ns : list string) (x : Command.t) :
  forall st,
  In x (registered (self (fold_left (register_name c) ns st)))
  <-> In x (registered (self st)) \/ (ns <> [] /\ x = c).
Proof.
  induction ns as [|n ns IH]; intros st; cbn [fold_left].
  - intuition.
  - rewrite IH.
    assert (Hstep : In x (registered (self (register_name c st n)))
                    <-> In x (registered (self st)) \/ x = c).
    { unfold register_name, registered. cbv zeta.
      cbn [self set_self commands]. apply registered_set. }
    rewrite Hstep. split.
    + intros [[H|H]|[_ H]]; auto; right; split; auto; discriminate.
    + intros [H|[_ H]]; auto.
Qed.

Lemma keys_unique_set {V : Type} (d : Dict.t V) (k : string) (v : V) :
  NoDup (Dict.keys d) -> NoDup (Dict.keys (Dict.set d k v)).
Proof.
  intros H. rewrite DictFacts.keys_set. unfold Dict.contains.
  destruct (Dict.get d k) eqn:E; [exact H|].
  apply DictFacts.get_None in E.
  apply NoDup_app; [exact H | repeat constructor; intros [] |].
  intros a Ha [<-|[]]. exact (E Ha).
Qed.

Lemma keys_unique_fold (c : Command.t) (ns : list string) :
  forall st,
  keys_unique (self st) ->
  keys_unique (self (fold_left (register_name c) ns st)).
Proof.
  induction ns as [|n ns IH]; intros st H; cbn [fold_left]; [exact H|].
  apply IH. unfold keys_unique, register_name. cbn [self set_self commands].
  now apply keys_unique_set.
Qed.

Lemma get_of_In {V : Type} (d : Dict.t V) (k : string) (v : V) :
  NoDup (Dict.keys d) -> In (k, v) d -> Dict.get d k = Some v.
Proof.
  induction d as [|[k0 v0] d IH]; simpl; intros Hnd Hin; [contradiction|].
  apply NoDup_cons_iff in Hnd. destruct Hnd as [Hk Hnd].
  destruct Hin as [Heq|Hin].
  - injection Heq as -> ->. now rewrite String.eqb_refl.
  - destruct (String.eqb k0 k) eqn:E.
    + apply String.eqb_eq in E. subst k0. exfalso. apply Hk.
      apply (in_map fst) in Hin. exact Hin.
    + now apply IH.
Qed.

(** With distinct keys, the commands of the registry are those
    [get_commands] finds under some name. *)
Lemma registered_iff_found (p : Parser) (x : Command.t) :
  keys_unique p ->
  (In x (registered p) <-> exists name, In x (get_commands p name)).
Proof.
  intros Hnd. unfold registered, get_commands, Dict.get_default, Dict.values.
  rewrite in_concat. split.
  - intros (l & Hl & Hx). apply in_map_iff in Hl.
    destruct Hl as ([k v] & <- & Hkv). exists k.
    now rewrite (get_of_In _ _ _ Hnd Hkv).
  - intros (name & Hx).
    destruct (Dict.get (commands p) name) as [l|] eqn:E; [|contradiction].
    exists l. split; [|exact Hx].
    apply DictFacts.get_In in E. apply (in_map snd) in E. exact E.
Qed.

(** A registration keeps the registry in order and gives the new command
    an identity no registered command has. *)
Lemma inner_sound (kwargs : Dict.t PyVal) (func : Func) (st : State)
  (c : Command.t) (st' : State) :
  inner kwargs func st = Some (c, st') ->
  sound st ->
  sound st' /\
  ~ In (Command.oid c) (map Command.oid (registered (self st))) /\
  next_oid st' = S (next_oid st).
Proof.
  intros Hin (Hk & Hc & Ha & Hu).
  destruct (inner_inv _ _ _ _ _ Hin)
    as (_ & _ & _ & _ & _ & _ & Hoid & _ & ->).
  unfold register.
  destruct (register_fold c (Command.names c) (snd (alloc st)))
    as (Hget & _ & _ & _ & _ & _ & Hn).
  cbv zeta in *. cbn [alloc snd self next_oid] in *.
  assert (Hfresh : ~ In (Command.oid c)
                     (map Command.oid (registered (self st)))).
  { intros H. apply in_map_iff in H. destruct H as (x & Hx & Hxin).
    apply Ha in Hxin. lia. }
  assert (Hreg : forall x,
             In x (registered
                     (self (fold_left (register_name c) (Command.names c)
                              (snd (alloc st)))))
             -> In x (registered (self st)) \/ x = c).
  { intros x Hx. apply registered_fold in Hx. cbn [alloc snd self] in Hx.
    tauto. }
  cbn [alloc snd] in Hreg.
  split; [|split; [exact Hfresh | exact Hn]].
  split; [|split; [|split]].
  - apply keys_unique_fold. exact Hk.
  - intros name x Hx. rewrite Hget in Hx. apply in_app_or in Hx.
    destruct Hx as [Hx|Hx]; [now apply Hc|].
    apply repeat_spec in Hx as Hxc. subst x.
    apply (count_occ_In string_dec).
    destruct (count_occ string_dec (Command.names c) name); [contradiction|].
    lia.
  - intros x Hx. rewrite Hn. apply Hreg in Hx.
    destruct Hx as [Hx| ->]; [apply Ha in Hx; lia | lia].
  - intros a b Hain Hbin Hab.
    apply Hreg in Hain. apply Hreg in Hbin.
    destruct Hain as [Hain| ->], Hbin as [Hbin| ->].
    + now apply Hu.
    + apply Ha in Hain. lia.
    + apply Ha in Hbin. lia.
    + reflexivity.
Qed.

Lemma fill_frame (kwargs : Dict.t PyVal) (items : list (string * PyVal)) :
  forall kw st,
  let r := fold_left (fill_step kwargs) items (kw, st) in
  self (snd r) = self st /\ next_oid (snd r) = next_oid st /\
  world (snd r) = world st.
Proof.
  induction items as [|[k v] items IH]; intros kw st; cbv zeta.
  - simpl. auto.
  - cbn [fold_left fill_step].
    match goal with
    | |- context [fold_left _ items (?kw1, ?st1)] =>
        destruct (IH kw1 st1) as (H1 & H2 & H3)
    end.
    cbv zeta in *. rewrite H1, H2, H3.
    destruct (Dict.contains kw k); auto.
Qed.

Lemma sound_frame (st st' : State) :
  self st' = self st -> next_oid st' = next_oid st -> sound st -> sound st'.
Proof.
  unfold sound, allocated. intros Hs Hn. rewrite Hs, Hn. auto.
Qed.

Lemma init_sound (p : Parser) : commands p = [] -> sound (init p).
Proof.
  intros Hp.
  unfold sound, keys_unique, consistent, allocated, oid_unique,
    registered, get_commands. cbn [init self next_oid].
  rewrite Hp. simpl. repeat split; try constructor; contradiction.
Qed.

(** The registry of [Sample.look_alias], built by three registrations, is
    in order. *)
Lemma look_alias_sound : sound Sample.look_alias.
Proof.
  assert (Hadd : forall f kw st, sound st -> sound (Sample.add f kw st)).
  { intros f kw st Hs. unfold Sample.add.
    destruct (inner kw f st) as [[c st']|] eqn:E; [|exact Hs].
    apply (inner_sound _ _ _ _ _ E Hs). }
  unfold Sample.look_alias, Sample.look_twice.
  repeat apply Hadd.
  apply init_sound. reflexivity.
Qed.

(** X10.  In every state the parser gets into, starting from an empty
    registry, by registrations and by handling lines: the keys of the
    registry are distinct, a command is found only under names of its own,
    the identities of the registered commands are below the next free one,
    and two registered commands with the same identity are the same
    command. *)
Theorem reachable_sound (st : State) : reachable st -> sound st.
Proof.
  induction 1 as [p Hp | kwargs func st c st' _ IH Hcmd
                 | kwargs kw func st c st' _ IH Hcmd
                 | conn line st _ IH].
  - now apply init_sound.
  - unfold command in Hcmd. injection Hcmd as Hcmd.
    apply (inner_sound _ _ _ _ _ Hcmd IH).
  - unfold default_kwargs_f, fill_kwargs in Hcmd.
    destruct (fill_frame kwargs (Dict.items kwargs) kw st) as (Hs & Hn & _).
    cbv zeta in *.
    destruct (fold_left (fill_step kwargs) (Dict.items kwargs) (kw, st))
      as [kw1 st1].
    cbn [snd] in *. unfold command in Hcmd. injection Hcmd as Hcmd.
    apply (inner_sound _ _ _ _ _ Hcmd).
    now apply (sound_frame st).
  - destruct (handle_line_summary conn line st) as (Hs & Hn & _).
    now apply (sound_frame st).
Qed.

Lemma look_alias_reachable : reachable Sample.look_alias.
Proof.
  assert (Hadd : forall f kw st,
             reachable st -> reachable (Sample.add f kw st)).
  { intros f kw st Hs. unfold Sample.add.
    destruct (inner kw f st) as [[c st']|] eqn:E; [|exact Hs].
    apply (reach_command kw f st c st' Hs).
    unfold command. now rewrite E. }
  unfold Sample.look_alias, Sample.look_twice.
  repeat apply Hadd.
  apply reach_init. reflexivity.
Qed.

Lemma reachable_sound_witness : sound Sample.look_alias.
Proof. apply reachable_sound. exact look_alias_reachable. Defined.

(** X11.  In a state whose registry is in order, [all_commands] lists
    exactly the commands that [get_commands] finds under some name, each
    one once. *)
Theorem all_commands_are_the_found_commands (st : State) :
  sound st ->
  NoDup (all_commands st) /\
  (forall c,
     In c (all_commands st) <->
     exists name, In c (get_commands (self st) name)).
Proof.
  intros (Hk & _ & _ & Hu).
  rewrite all_commands_fold.
  destruct (keep_invariant (registered (self st)))
    as (Hnd & Hsub & Hcov & _).
  cbv zeta in *. split.
  - eapply NoDup_map_inv. exact Hnd.
  - intros c. rewrite <- (registered_iff_found _ _ Hk). split.
    + apply Hsub.
    + intros Hc. pose proof (Hcov c Hc) as Ho.
      apply in_map_iff in Ho. destruct Ho as (c' & Ho & Hc').
      assert (c' = c) by (apply Hu; auto).
      now subst c'.
Qed.

Lemma all_commands_are_the_found_commands_witness :
  List.length (all_commands Sample.look_alias) = 3 /\
  NoDup (all_commands Sample.look_alias).
Proof.
  split; [reflexivity|].
  apply (all_commands_are_the_found_commands Sample.look_alias).
  exact look_alias_sound.
Defined.

(** ** Registration: defaults, and use *)

Lemma inner_allowed (kwargs : Dict.t PyVal) (func : Func) (st : State)
  (c : Command.t) (st' : State) :
  inner kwargs func st = Some (c, st') ->
  Dict.get kwargs "allowed" = None ->
  Command.allowed c = fun caller => true.
Proof.
  unfold inner, Dict.pop. cbv zeta. intros H Hnone.
  assert (Hd : Dict.get_default
                 (Dict.remove
                    (Dict.remove
                       (Dict.remove (Dict.remove kwargs "names")
                          "description") "help") "args_regexp")
                 "allowed" (VPred (fun caller => true))
               = VPred (fun caller => true)).
  { unfold Dict.get_default. rewrite !DictFacts.get_remove.
    cbn [String.eqb Ascii.eqb Bool.eqb andb]. now rewrite Hnone. }
  rewrite Hd in H.
  destruct (Dict.get_default kwargs "names" _); try discriminate.
  destruct (Dict.get_default (Dict.remove kwargs "names") "description" _);
    try discriminate.
  destruct (Dict.get_default
              (Dict.remove (Dict.remove kwargs "names") "description")
              "help" _); try discriminate.
  destruct (Dict.get_default
              (Dict.remove
                 (Dict.remove (Dict.remove kwargs "names") "description")
                 "help") "args_regexp" _); try discriminate.
  cbn [alloc] in H. injection H as <- _. reflexivity.
Qed.

Lemma get_default_None {V : Type} (d : Dict.t V) (k : string) (dflt : V) :
  Dict.get d k = None -> Dict.get_default d k dflt = dflt.
Proof. unfold Dict.get_default. now intros ->. Qed.

(** X12.  What a registration fills in for the keywords that are not
    given: the name of the function ([command] when it has none) as the
    only name; the docstring as description, or the placeholder when there
    is none or it is empty; the placeholder as help; the default pattern of
    the parser; a permission that lets every caller in.  The five keywords
    do not reach the command as extra keywords; all others do,
    unchanged. *)
Theorem registration_defaults (kwargs : Dict.t PyVal) (func : Func)
  (st : State) (c : Command.t) (st' : State) :
  inner kwargs func st = Some (c, st') ->
  (Dict.get kwargs "names" = None ->
   Command.names c
   = [match fn_name func with Some n => n | None => "command" end]) /\
  (Dict.get kwargs "description" = None ->
   Command.description c
   = match fn_doc func with
     | Some (String a d) => String a d
     | _ => "No description available."
     end) /\
  (Dict.get kwargs "help" = None ->
   Command.help c = "No help available.") /\
  (Dict.get kwargs "args_regexp" = None ->
   Command.args_regexp c = default_args_regexp (self st)) /\
  (Dict.get kwargs "allowed" = None ->
   forall caller, Command.ok_for c caller = true) /\
  (forall key, In key field_keys -> Dict.get (Command.extra c) key = None) /\
  (forall key, ~ In key field_keys ->
               Dict.get (Command.extra c) key = Dict.get kwargs key) /\
  Command.func c = func.
Proof.
  intros Hin.
  destruct (inner_inv _ _ _ _ _ Hin)
    as (E1 & E2 & E3 & E4 & _ & E6 & _ & E8 & _).
  cbv zeta in *.
  split.
  { intros H. rewrite (get_default_None _ _ _ H) in E1.
    injection E1 as <-. reflexivity. }
  split.
  { intros H. rewrite get_default_None in E2.
    - injection E2 as <-. reflexivity.
    - rewrite DictFacts.get_remove. exact H. }
  split.
  { intros H. rewrite get_default_None in E3.
    - injection E3 as <-. reflexivity.
    - rewrite !DictFacts.get_remove. exact H. }
  split.
  { intros H. rewrite get_default_None in E4.
    - injection E4 as <-. reflexivity.
    - rewrite !DictFacts.get_remove. exact H. }
  split.
  { intros H caller. unfold Command.ok_for.
    now rewrite (inner_allowed _ _ _ _ _ Hin H). }
  split.
  { intros key Hk. rewrite E6, !DictFacts.get_remove.
    unfold field_keys in Hk. simpl in Hk.
    destruct Hk as [<-|[<-|[<-|[<-|[<-|[]]]]]]; reflexivity. }
  split; [|exact E8].
  intros key Hk. rewrite E6, !DictFacts.get_remove.
  unfold field_keys in Hk. simpl in Hk.
  destruct (String.eqb "allowed" key) eqn:K5;
    [apply String.eqb_eq in K5; tauto|].
  destruct (String.eqb "args_regexp" key) eqn:K4;
    [apply String.eqb_eq in K4; tauto|].
  destruct (String.eqb "help" key) eqn:K3;
    [apply String.eqb_eq in K3; tauto|].
  destruct (String.eqb "description" key) eqn:K2;
    [apply String.eqb_eq in K2; tauto|].
  destruct (String.eqb "names" key) eqn:K1;
    [apply String.eqb_eq in K1; tauto|].
  reflexivity.
Qed.

Lemma registration_defaults_witness :
  match
    inner [("colour", VObj 3)]
      {| fn_name := None; fn_doc := Some EmptyString;
         fn_call := Sample.handler "x" Returned |}
      (init new_parser)
  with
  | Some (c, _) =>
      Command.names c = ["command"] /\
      Command.description c = "No description available." /\
      Dict.get (Command.extra c) "colour" = Some (VObj 3)
  | None => False
  end.
Proof.
  destruct (inner _ _ _) as [[c st']|] eqn:E; [|discriminate E].
  destruct (registration_defaults _ _ _ _ _ E)
    as (H1 & H2 & _ & _ & _ & _ & H7 & _).
  rewrite (H1 eq_refl), (H2 eq_refl), H7.
  - repeat split.
  - unfold field_keys. simpl. intuition discriminate.
Defined.

Lemma set_absent {V : Type} (d : Dict.t V) (k : string) (v : V) :
  Dict.get d k = None -> Dict.set d k v = d ++ [(k, v)].
Proof.
  induction d as [|[k0 v0] d IH]; simpl; intros H; [reflexivity|].
  destruct (String.eqb k0 k); [discriminate|].
  now rewrite IH.
Qed.

Lemma get_app {V : Type} (d1 d2 : Dict.t V) (k : string) :
  Dict.get (d1 ++ d2) k
  = match Dict.get d1 k with
    | Some v => Some v
    | None => Dict.get d2 k
    end.
Proof.
  induction d1 as [|[k0 v0] d1 IH]; simpl; [reflexivity|].
  destruct (String.eqb k0 k); [reflexivity | exact IH].
Qed.

Lemma fill_fold_apart (kwargs : Dict.t PyVal)
  (items : list (string * PyVal)) :
  forall kw st,
  NoDup (map fst items) ->
  (forall key, In key (map fst items) -> Dict.get kw key = None) ->
  fold_left (fill_step kwargs) items (kw, st) = (kw ++ items, st).
Proof.
  induction items as [|[k v] items IH]; intros kw st Hnd Hapart.
  - simpl. now rewrite List.app_nil_r.
  - cbn [fold_left fill_step]. cbn [map fst] in Hnd, Hapart.
    apply NoDup_cons_iff in Hnd. destruct Hnd as [Hk Hnd].
    assert (Hkw : Dict.get kw k = None) by (apply Hapart; now left).
    unfold Dict.contains. rewrite Hkw, (set_absent _ _ _ Hkw).
    rewrite IH.
    + now rewrite <- List.app_assoc.
    + exact Hnd.
    + intros key Hkey. rewrite get_app, (Hapart key (or_intror Hkey)).
      simpl. destruct (String.eqb k key) eqn:E; [|reflexivity].
      apply String.eqb_eq in E. subst. contradiction.
Qed.

(** X13.  When no key of the pre-filled defaults is among the keyword
    arguments of the call, the function of [default_kwargs] logs nothing
    and registers with the keyword arguments of the call followed by the
    defaults, in their order. *)
Theorem defaults_without_collision (kwargs kw : Dict.t PyVal)
  (a : option Func) (st : State) :
  NoDup (Dict.keys kwargs) ->
  (forall key, In key (Dict.keys kwargs) -> Dict.get kw key = None) ->
  fill_kwargs kwargs kw st = (kw ++ kwargs, st) /\
  default_kwargs_f kwargs a kw st = command a (kw ++ kwargs) st.
Proof.
  intros Hnd Hapart.
  assert (H : fill_kwargs kwargs kw st = (kw ++ kwargs, st)).
  { unfold fill_kwargs, Dict.items. now apply fill_fold_apart. }
  split; [exact H|].
  unfold default_kwargs_f. now rewrite H.
Qed.

Lemma defaults_without_collision_witness :
  fill_kwargs [("help", VStr "Ask a wizard.")]
    [("names", VNames ["look"; "l"])] (init new_parser)
  = ([("names", VNames ["look"; "l"]); ("help", VStr "Ask a wizard.")],
     init new_parser).
Proof.
  apply (defaults_without_collision
           [("help", VStr "Ask a wizard.")]
           [("names", VNames ["look"; "l"])] None (init new_parser)).
  - repeat constructor. simpl. tauto.
  - intros key [<-|[]]. reflexivity.
Defined.

(** X14.  A command that has just been registered under a name nothing
    was registered under before is the one a line with that name as token
    runs: when the command lets the caller in and accepts the arguments,
    and its function returns, [handle_line] returns 1 and the world is the
    one the function left. *)
Theorem registered_command_is_dispatched (kwargs : Dict.t PyVal)
  (func : Func) (st : State) (c : Command.t) (st' : State)
  (conn : Connection) (line name args : string) (k : Caller.t)
  (w w' : World) :
  let text := substitute (self st') line in
  let c0 := Caller.new conn text in
  let caller := Caller.set_args_str args (Caller.set_command name c0) in
  inner kwargs func st = Some (c, st') ->
  In name (Command.names c) ->
  get_commands (self st) name = [] ->
  m_pre_command (self st') c0 (world st') = (true, w) ->
  split (self st') text = Some (name, args) ->
  Command.ok_for c caller = true ->
  bind_args c args caller = Some k ->
  fn_call func k w = (Returned, w') ->
  handle_line conn line st' =
  (Normal (Some 1),
   {| self := self st';
      world := w';
      trace :=
        trace st'
        ++ [EvPreCommand c0; EvGetCommands name;
            EvOkFor (Command.oid c) caller;
            EvCall (Command.oid c) k Returned];
      next_oid := next_oid st' |}).
Proof.
  cbv zeta. intros Hin Hname Hempty Hpre Hsplit Hok Hb Hf.
  destruct (inner_inv _ _ _ _ _ Hin)
    as (_ & _ & _ & _ & _ & _ & _ & Hfunc & Hst').
  assert (Hget : exists rest, get_commands (self st') name = c :: rest).
  { rewrite Hst'. unfold register.
    destruct (register_fold c (Command.names c) (snd (alloc st)))
      as (Hget & _).
    cbv zeta in Hget. rewrite Hget. cbn [alloc snd self].
    rewrite Hempty. cbn [app].
    apply (count_occ_In string_dec) in Hname.
    destruct (count_occ string_dec (Command.names c) name) as [|n];
      [lia|].
    exists (repeat c n). reflexivity. }
  destruct Hget as (rest & Hget).
  rewrite (handle_line_enter _ _ _ _ _ _ Hpre Hsplit), Hget.
  unfold entry. cbn [for_loop]. unfold attempt, invoke. cbv zeta.
  cbn [l_caller l_commands l_state]. rewrite Hok, Hb.
  cbn [world emit set_world]. rewrite Hfunc, Hf.
  cbn [l_commands l_state plus result].
  f_equal. state_eq.
Qed.

Lemma registered_command_is_dispatched_witness :
  fst (handle_line 7 "dance wildly"
         (Sample.add (Sample.func "dance" (Sample.handler "danced" Returned))
            [] (init new_parser)))
  = Normal (Some 1).
Proof.
  destruct (inner [] (Sample.func "dance" (Sample.handler "danced" Returned))
              (init new_parser)) as [[c st']|] eqn:E; [|discriminate E].
  assert (Hst : Sample.add
                  (Sample.func "dance" (Sample.handler "danced" Returned))
                  [] (init new_parser) = st').
  { unfold Sample.add. now rewrite E. }
  rewrite Hst.
  set (c0 := Caller.set_args_str "wildly"
               (Caller.set_command "dance" (Caller.new 7 "dance wildly"))).
  pose proof (registered_command_is_dispatched [] _ _ c st' 7 "dance wildly"
                "dance" "wildly"
                (Caller.set_kwargs [] (Caller.set_args [] c0))
                empty_world {| outbox := []; game := ["danced"] |} E) as H.
  injection E as <- <-.
  rewrite H; try reflexivity.
  left. reflexivity.
Defined.

(** X15.  A handler that raises [DontStopException] passes the line on:
    the iteration goes on with the next candidate, the command counts as
    matched, the world is as the handler left it, and the parser itself
    does nothing about it: no log record, no call of the error hook, no
    exception stored in the caller. *)
Theorem continuation_passes_on (cmd : Command.t) (rest : list Command.t)
  (args : string) (v : Locals) (k : Caller.t) (w : World) :
  Command.ok_for cmd (l_caller v) = true ->
  bind_args cmd args (l_caller v) = Some k ->
  fn_call (Command.func cmd) k (world (l_state v))
  = (Raised DontStopException, w) ->
  Caller.exception k = Caller.exception (l_caller v) /\
  for_loop (cmd :: rest) args v =
  for_loop rest args
    (MkLocals k (l_commands v + 1)
       {| self := self (l_state v);
          world := w;
          trace :=
            trace (l_state v)
            ++ [EvOkFor (Command.oid cmd) (l_caller v);
                EvCall (Command.oid cmd) k (Raised DontStopException)];
          next_oid := next_oid (l_state v) |}).
Proof.
  intros Hok Hb Hf. split.
  - unfold bind_args in Hb.
    destruct (Command.args_regexp cmd) as [re|].
    + destruct (re args); [|discriminate]. now injection Hb as <-.
    + now injection Hb as <-.
  - unfold for_loop at 1; fold for_loop.
    unfold attempt, invoke. cbv zeta.
    rewrite Hok, Hb. cbn [world emit]. rewrite Hf.
    cbn [l_caller l_commands l_state].
    f_equal. f_equal. state_eq.
Qed.

Lemma continuation_passes_on_witness :
  let st := Sample.look_twice in
  let v := entry 7 "look" "look" "" empty_world st in
  fst (for_loop (get_commands (self st) "look") "" v) = Broke /\
  l_commands (snd (for_loop (get_commands (self st) "look") "" v)) = 2.
Proof.
  cbv zeta.
  set (st := Sample.look_twice).
  set (v := entry 7 "look" "look" "" empty_world st).
  set (c1 := nth 0 (get_commands (self st) "look")
               (Command.Make 9 (Sample.func "" (Sample.handler "" Returned))
                  [] "" "" None (fun _ => true) [])).
  set (c2 := nth 1 (get_commands (self st) "look") c1).
  change (get_commands (self st) "look") with [c1; c2].
  destruct (continuation_passes_on c1 [c2] "" v
              (Caller.set_kwargs [] (Caller.set_args [] (l_caller v)))
              {| outbox := []; game := ["first"] |}
              eq_refl eq_refl eq_refl) as [_ Hstep].
  rewrite Hstep. split; reflexivity.
Defined.
